(** * oxn: observability experiments engine

    A shallow embedding of the experiment controller of oxn
    (utils.py, store.py, orchestration.py, loadgen.py, responses.py,
    report.py, runner.py, engine.py) and the properties of its
    specification, each settled against the code.

    Conventions.  Python [str] is [string]; a Python [float] is a
    binary64 primitive float; a Python [int] is [Z]; a [dict] whose
    iteration order matters is an association list, a [set] is a [gset];
    a raised exception is the left injection of a sum. *)

From Stdlib Require Import ZArith String Ascii List Bool Lia.
From Stdlib Require Import Permutation Sorted Orders Mergesort.
From Stdlib Require Import PrimFloat SpecFloat FloatOps.
From stdpp Require Import gmap strings.
Import ListNotations.

(* String concatenation computes on literals in the proofs below. *)
#[local] Arguments String.append !s1 s2 : simpl nomatch.

(** ** Python values shared by the modules *)

(** The exceptions the modelled code raises or lets escape. *)
Inductive exn : Type :=
| OxnException (message explanation : string)
| OrchestrationException (message explanation : string)
| KeyError (key : string)
| TypeError (what : string)
| NotFound (what : string)
| AttributeError (what : string)
| KeyboardInterrupt.

(** A computation that returns a value or raises. *)
Definition result (A : Type) : Type := (exn + A)%type.

Definition ok {A} (a : A) : result A := inr a.
Definition raise {A} (e : exn) : result A := inl e.

Definition rbind {A B} (m : result A) (k : A -> result B) : result B :=
  match m with
  | inl e => inl e
  | inr a => k a
  end.

Notation "'let?' x ':=' m 'in' k" := (rbind m (fun x => k))
  (at level 10, x pattern, m at level 100, k at level 200).

(** [float(z)] for a Python int [z]: the correctly rounded binary64 value. *)
Definition Z2F (z : Z) : float := SF2Prim (binary_normalize prec emax z 0 false).

(** Python compares a float with an int by value, without rounding the
    int: [None] when the float is a NaN. *)
Definition float_cmp_int (f : float) (z : Z) : option comparison :=
  match Prim2SF f with
  | S754_nan => None
  | S754_infinity true => Some Lt
  | S754_infinity false => Some Gt
  | S754_zero _ => Some (0 ?= z)%Z
  | S754_finite neg m e =>
      let n := if neg then Z.neg m else Z.pos m in
      Some (if (0 <=? e)%Z then (n * 2 ^ e ?= z)%Z else (n ?= z * 2 ^ (- e))%Z)
  end.

(** [f < z] and [z < f] for a float [f] and an int [z]. *)
Definition float_ltb_int (f : float) (z : Z) : bool :=
  match float_cmp_int f z with
  | Some Lt => true
  | _ => false
  end.

Definition int_ltb_float (z : Z) (f : float) : bool :=
  match float_cmp_int f z with
  | Some Gt => true
  | _ => false
  end.

(** Concatenation of strings. *)
Lemma string_app_assoc (a b c : string) : ((a ++ b) ++ c = a ++ b ++ c)%string.
Proof. induction a as [|x a IH]; simpl; [reflexivity | now rewrite IH]. Qed.

Lemma string_app_nil_r (a : string) : (a ++ "" = a)%string.
Proof. induction a as [|x a IH]; simpl; [reflexivity | now rewrite IH]. Qed.

Lemma string_app_inv_head (p a b : string) : (p ++ a = p ++ b)%string -> a = b.
Proof.
  induction p as [|x p IH]; simpl; [trivial |]. intros [= H]. now apply IH.
Qed.

Lemma string_length_app (a b : string) :
  String.length (a ++ b) = (String.length a + String.length b)%nat.
Proof. induction a as [|x a IH]; simpl; [reflexivity | now rewrite IH]. Qed.

(** ** utils.py *)

Module Utils.

Local Open Scope string_scope.

(** The alternation [(us|ms|s|m|h|d)] of [time_string_format_regex],
    in the order the alternatives are tried. *)
Inductive time_unit : Type := Us | Ms | Sec | Min | Hour | Day.

Definition unit_string (u : time_unit) : string :=
  match u with
  | Us => "us" | Ms => "ms" | Sec => "s" | Min => "m" | Hour => "h" | Day => "d"
  end.

(** [SECONDS_MAP]: [1 / 10 ** 6] and [1 / 10 ** 3] are true divisions,
    the other entries are ints that the product converts to float. *)
Definition SECONDS_MAP (u : time_unit) : float :=
  match u with
  | Us => (Z2F 1 / Z2F (10 ^ 6))%float
  | Ms => (Z2F 1 / Z2F (10 ^ 3))%float
  | Sec => Z2F 1
  | Min => Z2F 60
  | Hour => Z2F 3600
  | Day => Z2F 86400
  end.

(** [\d] on ASCII text. *)
Definition is_digit (c : ascii) : bool :=
  (48 <=? nat_of_ascii c)%nat && (nat_of_ascii c <=? 57)%nat.

(** [\d+] is greedy: the longest run of digits at the front of [s] and
    what follows it.  Giving digits back never helps the match, since
    no alternative of the unit group starts with a digit. *)
Fixpoint span_digits (s : string) : string * string :=
  match s with
  | String c s' =>
      if is_digit c
      then let (d, r) := span_digits s' in (String c d, r)
      else ("", s)
  | "" => ("", "")
  end.

(** The unit group: the first alternative that matches at the front. *)
Definition match_unit (s : string) : option time_unit :=
  if String.prefix "us" s then Some Us
  else if String.prefix "ms" s then Some Ms
  else if String.prefix "s" s then Some Sec
  else if String.prefix "m" s then Some Min
  else if String.prefix "h" s then Some Hour
  else if String.prefix "d" s then Some Day
  else None.

(** One match of [(\d+)(us|ms|s|m|h|d)] anchored at the front of [s]:
    the two captured groups. *)
Definition match_at (s : string) : option (string * time_unit) :=
  let (d, r) := span_digits s in
  match d with
  | "" => None
  | _ => match match_unit r with
         | Some u => Some (d, u)
         | None => None
         end
  end.

Definition match_length (g : string * time_unit) : nat :=
  String.length (fst g) + String.length (unit_string (snd g)).

(** [re.findall]: the non-overlapping matches, scanning left to right.
    [skip] counts the characters still covered by the last match. *)
Fixpoint scan (skip : nat) (s : string) : list (string * time_unit) :=
  match s with
  | "" => []
  | String _ s' =>
      match skip with
      | S k => scan k s'
      | O =>
          match match_at s with
          | Some g => g :: scan (match_length g - 1) s'
          | None => scan 0 s'
          end
      end
  end.

Definition findall (s : string) : list (string * time_unit) := scan 0 s.

(** [validate_time_string]: [bool(re.match(regex, time_string))]. *)
Definition validate_time_string (time_string : string) : bool :=
  match match_at time_string with
  | Some _ => true
  | None => false
  end.

(** The int a run of decimal digits denotes. *)
Definition digit_value (c : ascii) : Z := Z.of_nat (nat_of_ascii c) - 48.

Fixpoint int_of_digits_from (acc : Z) (s : string) : Z :=
  match s with
  | "" => acc
  | String c s' => int_of_digits_from (10 * acc + digit_value c) s'
  end.

Definition int_of_digits (s : string) : Z := int_of_digits_from 0 s.

(** [float(value_part)]. *)
Definition float_of_digits (s : string) : float := Z2F (int_of_digits s).

(** [time_string_to_seconds]. *)
Definition time_string_to_seconds (time_string : string) : float :=
  let matches := findall time_string in
  fold_left
    (fun seconds mtch =>
       let value_part := fst mtch in
       let unit_part := snd mtch in
       (seconds + float_of_digits value_part * SECONDS_MAP unit_part)%float)
    matches (Z2F 0).

Definition to_milliseconds (seconds : float) : float := (seconds * Z2F (10 ^ 3))%float.

Definition to_microseconds (seconds : float) : float := (seconds * Z2F (10 ^ 6))%float.

(** *** What a well-formed duration is, independently of the scanner *)

Fixpoint all_digits (s : string) : bool :=
  match s with
  | "" => true
  | String c s' => is_digit c && all_digits s'
  end.

(** A group: a non-empty run of digits and a unit. *)
Definition wf_group (g : string * time_unit) : Prop :=
  fst g <> "" /\ all_digits (fst g) = true.

(** The text of a sequence of groups, as in ["10m30s"]. *)
Fixpoint render (gs : list (string * time_unit)) : string :=
  match gs with
  | [] => ""
  | g :: gs' => fst g ++ unit_string (snd g) ++ render gs'
  end.

(** The sum the specification asks for, accumulated left to right. *)
Definition sum_groups (gs : list (string * time_unit)) : float :=
  fold_left
    (fun acc g => (acc + Z2F (int_of_digits (fst g)) * SECONDS_MAP (snd g))%float)
    gs (Z2F 0).

(** [s] contains the text of some unit. *)
Definition contains_unit (s : string) : Prop :=
  exists u pre post, s = pre ++ unit_string u ++ post.

(** *** Facts about the scanner *)

Definition digit_headed (s : string) : Prop :=
  match s with
  | "" => True
  | String c _ => is_digit c = true
  end.

Lemma unit_string_head (u : time_unit) :
  exists c t, unit_string u = String c t /\ is_digit c = false.
Proof. destruct u; simpl; eauto. Qed.

Lemma span_digits_split (s d r : string) :
  span_digits s = (d, r) -> s = d ++ r /\ all_digits d = true.
Proof.
  revert d r. induction s as [|c s IH]; simpl; intros d r H.
  - injection H as <- <-. split; reflexivity.
  - destruct (is_digit c) eqn:Hc.
    + destruct (span_digits s) as [d' r'] eqn:Hs. injection H as <- <-.
      destruct (IH _ _ eq_refl) as [-> Hd]. simpl. rewrite Hc, Hd. split; reflexivity.
    + injection H as <- <-. split; reflexivity.
Qed.

Lemma span_digits_app (d r : string) :
  all_digits d = true ->
  match r with "" => True | String c _ => is_digit c = false end ->
  span_digits (d ++ r) = (d, r).
Proof.
  intros Hd Hr. induction d as [|c d IH]; simpl in *.
  - destruct r as [|c r]; simpl; [reflexivity | now rewrite Hr].
  - apply andb_prop in Hd as [Hc Hd]. rewrite Hc, (IH Hd). reflexivity.
Qed.

Lemma prefix_split (p s : string) :
  String.prefix p s = true -> exists post, s = p ++ post.
Proof.
  revert s. induction p as [|c p IH]; intros s H.
  - exists s. reflexivity.
  - destruct s as [|c' s]; simpl in H; [discriminate |].
    destruct (ascii_dec c c') as [<- | ]; [| discriminate].
    destruct (IH _ H) as [post ->]. exists post. reflexivity.
Qed.

Lemma match_unit_split (r : string) (u : time_unit) :
  match_unit r = Some u -> exists post, r = unit_string u ++ post.
Proof.
  unfold match_unit. intros H.
  repeat match type of H with
         | (if String.prefix ?p r then _ else _) = _ =>
             let E := fresh "E" in
             destruct (String.prefix p r) eqn:E;
             [ injection H as <-; exact (prefix_split _ _ E) | ]
         end.
  discriminate.
Qed.

Lemma is_digit_cases (c : ascii) :
  is_digit c = true ->
  In c ["0"; "1"; "2"; "3"; "4"; "5"; "6"; "7"; "8"; "9"]%char.
Proof.
  destruct c as [[] [] [] [] [] [] [] []]; intros H;
    try (cbv in H; discriminate H); simpl; tauto.
Qed.

Lemma match_unit_render (u : time_unit) (rest : string) :
  digit_headed rest -> match_unit (unit_string u ++ rest) = Some u.
Proof.
  intros Hr. destruct rest as [|c rest]; [destruct u; reflexivity |].
  apply is_digit_cases in Hr. simpl in Hr.
  repeat (destruct Hr as [<- | Hr]; [destruct u; reflexivity |]).
  contradiction.
Qed.

Lemma match_at_split (s d : string) (u : time_unit) :
  match_at s = Some (d, u) ->
  d <> "" /\ all_digits d = true /\ exists post, s = d ++ unit_string u ++ post.
Proof.
  unfold match_at. destruct (span_digits s) as [d' r] eqn:Hs.
  destruct (span_digits_split _ _ _ Hs) as [-> Hd].
  destruct d' as [|c d']; [discriminate |].
  destruct (match_unit r) as [u'|] eqn:Hu; [| discriminate].
  intros H. injection H as <- <-.
  destruct (match_unit_split _ _ Hu) as [post ->].
  repeat split; [discriminate | exact Hd | eauto].
Qed.

Lemma match_at_render (d rest : string) (u : time_unit) :
  d <> "" -> all_digits d = true -> digit_headed rest ->
  match_at (d ++ unit_string u ++ rest) = Some (d, u).
Proof.
  intros Hne Hd Hr. unfold match_at.
  rewrite span_digits_app; [| exact Hd |].
  - destruct d as [|c d]; [congruence |]. now rewrite match_unit_render.
  - destruct (unit_string_head u) as (c & t & -> & Hc). exact Hc.
Qed.

Lemma scan_skip (x r : string) : scan (String.length x) (x ++ r) = scan 0 r.
Proof. induction x as [|c x IH]; simpl; [reflexivity | exact IH]. Qed.

Lemma render_digit_headed (gs : list (string * time_unit)) :
  Forall wf_group gs -> digit_headed (render gs).
Proof.
  intros H. destruct H as [| [d u] gs [Hne Hd] _]; simpl in *; [exact I |].
  destruct d as [|c d]; [congruence |]. simpl in *.
  now apply andb_prop in Hd as [Hc _].
Qed.

Lemma findall_render (gs : list (string * time_unit)) :
  Forall wf_group gs -> findall (render gs) = gs.
Proof.
  unfold findall. induction 1 as [| [d u] gs [Hne Hd] Hgs IH]; [reflexivity |].
  simpl in *.
  pose proof (match_at_render d (render gs) u Hne Hd (render_digit_headed _ Hgs)) as Hm.
  destruct d as [|c d]; [congruence |].
  change (String c d ++ unit_string u ++ render gs)
    with (String c (d ++ unit_string u ++ render gs)) in *.
  cbn [scan]. rewrite Hm. f_equal.
  unfold match_length. cbn [fst snd String.length].
  replace (S (String.length d) + String.length (unit_string u) - 1)%nat
    with (String.length (d ++ unit_string u))
    by (rewrite string_length_app; lia).
  rewrite <- string_app_assoc, scan_skip. exact IH.
Qed.

(** C7: on the text of any sequence of (digits, unit) groups
    [time_string_to_seconds] returns the sum, over the groups, of the
    value times the unit's factor in seconds; ["10m30s"] gives 630 and
    ["0m"] gives 0; and [validate_time_string] rejects every string
    that contains no unit. *)
Theorem time_string_to_seconds_sums :
  (forall gs, Forall wf_group gs ->
     findall (render gs) = gs /\
     time_string_to_seconds (render gs) = sum_groups gs) /\
  time_string_to_seconds "10m30s" = Z2F 630 /\
  time_string_to_seconds "0m" = Z2F 0 /\
  (forall s, ~ contains_unit s -> validate_time_string s = false).
Proof.
  split; [| split; [| split]].
  - intros gs Hgs. split; [now apply findall_render |].
    unfold time_string_to_seconds, sum_groups, float_of_digits.
    now rewrite findall_render.
  - vm_compute. reflexivity.
  - vm_compute. reflexivity.
  - intros s Hs. unfold validate_time_string.
    destruct (match_at s) as [[d u]|] eqn:Hm; [| reflexivity].
    exfalso. apply Hs.
    destruct (match_at_split _ _ _ Hm) as (_ & _ & post & ->).
    exists u, d, post. reflexivity.
Qed.

Lemma no_unit_in_digits : ~ contains_unit "10".
Proof.
  intros (u & pre & post & H).
  destruct pre as [|a [|b [|c pre]]]; destruct u; simpl in H; discriminate.
Qed.

Lemma time_string_to_seconds_sums_witness :
  time_string_to_seconds (render [("1", Hour); ("30", Min); ("15", Ms)])
    = sum_groups [("1", Hour); ("30", Min); ("15", Ms)]
  /\ validate_time_string "10" = false.
Proof.
  destruct time_string_to_seconds_sums as (Hsum & _ & _ & Hrej).
  split.
  - apply Hsum. repeat constructor; simpl; discriminate.
  - apply Hrej. exact no_unit_in_digits.
Defined.

End Utils.

(** ** pandas data frames, as far as the controller uses them *)

Module Frame.

(** A cell of a column. *)
Inductive cell : Type :=
| CFloat (f : float)
| CInt (z : Z)
| CStr (s : string).

(** A frame: its columns in order, each with one cell per row. *)
Definition DataFrame : Type := list (string * list cell).

(** [df[name]]; raises [KeyError] when there is no such column. *)
Fixpoint get_column (df : DataFrame) (name : string) : result (list cell) :=
  match df with
  | [] => raise (KeyError name)
  | (n, col) :: df' => if String.eqb n name then ok col else get_column df' name
  end.

(** [df[name] = col]: replaces the column where it stands, or appends it. *)
Fixpoint set_column (df : DataFrame) (name : string) (col : list cell) : DataFrame :=
  match df with
  | [] => [(name, col)]
  | (n, c) :: df' =>
      if String.eqb n name then (n, col) :: df' else (n, c) :: set_column df' name col
  end.

(** The cells of [col] whose row is selected by [mask]. *)
Fixpoint select (mask : list bool) (col : list cell) : list cell :=
  match mask, col with
  | b :: mask', c :: col' => if b then c :: select mask' col' else select mask' col'
  | _, _ => []
  end.

(** [df.loc[mask]]: the selected rows of every column. *)
Definition loc (df : DataFrame) (mask : list bool) : DataFrame :=
  map (fun nc => (fst nc, select mask (snd nc))) df.

(** Equality of a cell with a Python [str]. *)
Definition cell_eq_str (c : cell) (s : string) : bool :=
  match c with
  | CStr s' => String.eqb s' s
  | _ => false
  end.

End Frame.

(** ** store.py *)

Module Store.

Import Frame.
Local Open Scope string_scope.

(** [class Node]: the character, the end marker and the children,
    a dict from characters to nodes in insertion order. *)
#[warnings="-register-all"]
Inductive Node : Type :=
| mkNode (character : string) (end_ : bool) (children : list (ascii * Node)).

Definition character (n : Node) : string := let (c, _, _) := n in c.
Definition end_ (n : Node) : bool := let (_, e, _) := n in e.
Definition children (n : Node) : list (ascii * Node) := let (_, _, ch) := n in ch.

(** [Node(character)]. *)
Definition Node_init (character : string) : Node := mkNode character false [].

(** [node.children[character]], when [character in node.children]. *)
Fixpoint dict_get (c : ascii) (d : list (ascii * Node)) : option Node :=
  match d with
  | [] => None
  | (k, n) :: d' => if Ascii.eqb k c then Some n else dict_get c d'
  end.

(** [node.children[character] = n]. *)
Fixpoint dict_set (c : ascii) (n : Node) (d : list (ascii * Node)) : list (ascii * Node) :=
  match d with
  | [] => [(c, n)]
  | (k, m) :: d' => if Ascii.eqb k c then (k, n) :: d' else (k, m) :: dict_set c n d'
  end.

(** The walk of [Trie.insert] below [node]: follows or creates the child
    for every character and marks the last node reached. *)
Fixpoint insert_from (node : Node) (store_entry : string) : Node :=
  match store_entry with
  | "" => mkNode (character node) true (children node)
  | String ch rest =>
      let child :=
        match dict_get ch (children node) with
        | Some n => n
        | None => Node_init (String ch "")
        end in
      mkNode (character node) (end_ node)
        (dict_set ch (insert_from child rest) (children node))
  end.

(** [Trie.depth_first_search]: the keys appended to [self.keys]. *)
Fixpoint depth_first_search (node : Node) (prefix : string) : list string :=
  match node with
  | mkNode ch e kids =>
      (if e then [prefix ++ ch] else [])
        ++ flat_map (fun kc => depth_first_search (snd kc) (prefix ++ ch)) kids
  end.

(** The loop of [Trie.query] that walks down [item]; [None] when a
    character is missing. *)
Fixpoint descend (node : Node) (item : string) : option Node :=
  match item with
  | "" => Some node
  | String ch rest =>
      match dict_get ch (children node) with
      | Some n => descend n rest
      | None => None
      end
  end.

(** [item[:-1]]. *)
Fixpoint drop_last (item : string) : string :=
  match item with
  | "" => ""
  | String _ "" => ""
  | String c rest => String c (drop_last rest)
  end.

(** The order of [sorted(..., reverse=True)] on strings: code point
    lexicographic, descending. *)
Module StringDescOrder <: Orders.TotalLeBool.
Definition t : Type := string.
Definition leb (a b : string) : bool := String.leb b a.
Theorem leb_total (a b : string) : leb a b = true \/ leb b a = true.
Proof. unfold leb. destruct (String.leb_total a b); tauto. Qed.
End StringDescOrder.

Module DescSort := Mergesort.Sort StringDescOrder.

Definition sorted_reverse (l : list string) : list string := DescSort.sort l.

(** The pickled roots on disk, by file name. *)
Abbreviation files := (gmap string Node).

(** [class Trie]. *)
Record Trie : Type := mkTrie {
  root : Node;
  keys : list string;
  disk_name : option string
}.

(** The file the trie is bound to, when [self.disk_name] is truthy. *)
Definition bound_file (t : Trie) : option string :=
  match disk_name t with
  | Some "" => None
  | other => other
  end.

Definition serialize (t : Trie) (disk : files) : files :=
  match bound_file t with
  | Some name => <[name := root t]> disk
  | None => disk
  end.

Definition deserialize (t : Trie) (disk : files) : Trie :=
  match bound_file t with
  | Some name =>
      match disk !! name with
      | Some r => mkTrie r (keys t) (disk_name t)
      | None => t
      end
  | None => t
  end.

(** [Trie(disk_name)]. *)
Definition Trie_init (disk_name : option string) (disk : files) : Trie :=
  deserialize (mkTrie (Node_init "") [] disk_name) disk.

(** [Trie.insert]. *)
Definition insert (t : Trie) (store_entry : string) (disk : files) : Trie * files :=
  let t' := mkTrie (insert_from (root t) store_entry) (keys t) (disk_name t) in
  (t', serialize t' disk).

(** [Trie.query]: the trie with its accumulator, and the list returned. *)
Definition query (t : Trie) (item : string) : Trie * list string :=
  match descend (root t) item with
  | None => (mkTrie (root t) [] (disk_name t), [])
  | Some node =>
      let found := depth_first_search node (drop_last item) in
      (mkTrie (root t) found (disk_name t), sorted_reverse found)
  end.

Definition construct_key (experiment_key run_key response_key : string) : string :=
  experiment_key ++ "/" ++ run_key ++ "/" ++ response_key.

(** *** The trie as a set of keys *)

(** [p] is a prefix of [k]. *)
Definition is_prefix (p k : string) : Prop := exists suffix, k = p ++ suffix.

(** [s] leads from [node] to a node marked as an end. *)
Definition member (node : Node) (s : string) : bool :=
  match descend node s with
  | Some n => end_ n
  | None => false
  end.

(** The shape [insert] maintains: the keys of a children dict are
    distinct, and the child under [c] carries the character [c]. *)
#[warnings="-register-all"]
Inductive wf : Node -> Prop :=
| wf_node ch e kids :
    List.NoDup (map fst kids) ->
    Forall (fun kc => character (snd kc) = String (fst kc) "" /\ wf (snd kc)) kids ->
    wf (mkNode ch e kids).

(** Induction on nodes that reaches into the children. *)
Lemma Node_induction (P : Node -> Prop) :
  (forall ch e kids, Forall (fun kc => P (snd kc)) kids -> P (mkNode ch e kids)) ->
  forall n, P n.
Proof.
  intros step. fix IH 1. intros [ch e kids]. apply step.
  induction kids as [| [k c] kids IHk]; constructor; [apply IH | exact IHk].
Qed.

(** The trie after inserting [ks], in order, into the trie [t]. *)
Definition insert_all (t : Trie) (disk : files) (ks : list string) : Trie * files :=
  fold_left (fun st k => insert (fst st) k (snd st)) ks (t, disk).

(** *** The children dict *)

Lemma dict_get_In (c : ascii) (kids : list (ascii * Node)) (n : Node) :
  dict_get c kids = Some n -> In (c, n) kids.
Proof.
  induction kids as [| [k m] kids IH]; simpl; [discriminate |].
  destruct (Ascii.eqb_spec k c) as [-> | _]; intros H.
  - injection H as ->. now left.
  - right. now apply IH.
Qed.

Lemma In_dict_get (c : ascii) (kids : list (ascii * Node)) (n : Node) :
  List.NoDup (map fst kids) -> In (c, n) kids -> dict_get c kids = Some n.
Proof.
  induction kids as [| [k m] kids IH]; simpl; [contradiction |].
  intros Hnd [Heq | Hin].
  - injection Heq as -> ->. now rewrite Ascii.eqb_refl.
  - inversion Hnd as [| ? ? Hk Hnd']; subst.
    destruct (Ascii.eqb_spec k c) as [-> | _]; [| now apply IH].
    exfalso. apply Hk. change c with (fst (c, n)). now apply in_map.
Qed.

Lemma dict_get_set (c k : ascii) (n : Node) (kids : list (ascii * Node)) :
  dict_get c (dict_set k n kids) = if Ascii.eqb k c then Some n else dict_get c kids.
Proof.
  induction kids as [| [k' m] kids IH]; simpl.
  - reflexivity.
  - destruct (Ascii.eqb_spec k' k) as [-> | Hne]; simpl.
    + destruct (Ascii.eqb k c); reflexivity.
    + rewrite IH. destruct (Ascii.eqb_spec k' c) as [-> | _]; [| reflexivity].
      destruct (Ascii.eqb_spec k c) as [-> | _]; [congruence | reflexivity].
Qed.

Lemma dict_set_keys (k : ascii) (n : Node) (kids : list (ascii * Node)) :
  map fst (dict_set k n kids) =
  if existsb (Ascii.eqb k) (map fst kids) then map fst kids else (map fst kids ++ [k])%list.
Proof.
  induction kids as [| [k' m] kids IH]; simpl; [reflexivity |].
  rewrite (Ascii.eqb_sym k k').
  destruct (Ascii.eqb k' k); simpl; [reflexivity |].
  rewrite IH. now destruct (existsb _ _).
Qed.

Lemma dict_set_NoDup (k : ascii) (n : Node) (kids : list (ascii * Node)) :
  List.NoDup (map fst kids) -> List.NoDup (map fst (dict_set k n kids)).
Proof.
  intros Hnd. rewrite dict_set_keys.
  destruct (existsb _ _) eqn:E; [exact Hnd |].
  apply List.NoDup_app; [exact Hnd | repeat constructor; simpl; tauto |].
  intros x Hx [<- | []].
  assert (existsb (Ascii.eqb k) (map fst kids) = true); [| congruence].
  apply existsb_exists. exists k. split; [exact Hx | apply Ascii.eqb_refl].
Qed.

Lemma dict_set_Forall (P : ascii * Node -> Prop) k n kids :
  P (k, n) -> Forall P kids -> Forall P (dict_set k n kids).
Proof.
  intros Hn. induction 1 as [| [k' m] kids Hm Hk IH]; simpl.
  - now repeat constructor.
  - destruct (Ascii.eqb_spec k' k) as [-> | _]; constructor; assumption.
Qed.

(** *** Membership *)

Lemma insert_from_character (n : Node) (e : string) :
  character (insert_from n e) = character n.
Proof. destruct e; reflexivity. Qed.

Lemma member_fresh (c s : string) : member (Node_init c) s = false.
Proof. destruct s; reflexivity. Qed.

Lemma member_insert_from (e : string) :
  forall n s, member (insert_from n e) s = String.eqb s e || member n s.
Proof.
  induction e as [| ch rest IH]; intros [c0 e0 kids] s.
  - destruct s as [| c s]; [reflexivity |]. reflexivity.
  - destruct s as [| c s]; [reflexivity |].
    unfold member. cbn [insert_from descend children character end_ String.eqb].
    rewrite dict_get_set, (Ascii.eqb_sym c ch).
    destruct (Ascii.eqb_spec ch c) as [-> | _]; [| reflexivity].
    fold (member (insert_from
                    match dict_get c kids with
                    | Some n => n
                    | None => Node_init (String c "")
                    end rest) s).
    rewrite IH.
    destruct (dict_get c kids) as [n |]; [reflexivity |].
    now rewrite member_fresh.
Qed.

Lemma wf_insert_from (e : string) : forall n, wf n -> wf (insert_from n e).
Proof.
  induction e as [| ch rest IH]; intros n Hn; destruct Hn as [c0 e0 kids Hnd Hk].
  - now constructor.
  - cbn [insert_from children character end_]. constructor.
    + now apply dict_set_NoDup.
    + apply dict_set_Forall; [| exact Hk]. cbn [fst snd].
      rewrite insert_from_character.
      destruct (dict_get ch kids) as [n |] eqn:Hg.
      * apply dict_get_In in Hg. rewrite List.Forall_forall in Hk.
        destruct (Hk _ Hg) as [Hc Hw]. split; [exact Hc | now apply IH].
      * split; [reflexivity |]. apply IH. constructor; constructor.
Qed.

Lemma member_app (p s : string) :
  forall n, member n (p ++ s) =
            match descend n p with
            | Some m => member m s
            | None => false
            end.
Proof.
  induction p as [| c p IH]; intros n; [reflexivity |].
  unfold member in *. simpl. destruct (dict_get c (children n)); [apply IH | reflexivity].
Qed.

Lemma wf_descend (p : string) :
  forall n m, wf n -> descend n p = Some m -> wf m.
Proof.
  induction p as [| c p IH]; intros n m Hn; simpl.
  - now intros [= <-].
  - destruct (dict_get c (children n)) as [n' |] eqn:Hg; [| discriminate].
    apply IH. destruct Hn as [c0 e0 kids _ Hk]. simpl in Hg.
    apply dict_get_In in Hg. rewrite List.Forall_forall in Hk. now destruct (Hk _ Hg).
Qed.

(** The node reached by a non-empty [item] carries its last character,
    so [item[:-1]] followed by that character is [item] again. *)
Lemma descend_drop_last (p : string) :
  forall c n m, wf n -> descend n (String c p) = Some m ->
                drop_last (String c p) ++ character m = String c p.
Proof.
  induction p as [| c' p IH]; intros c n m Hn H.
  - simpl in H. destruct (dict_get c (children n)) as [n' |] eqn:Hg; [| discriminate].
    injection H as <-. destruct Hn as [c0 e0 kids _ Hk]. simpl in Hg.
    apply dict_get_In in Hg. rewrite List.Forall_forall in Hk.
    destruct (Hk _ Hg) as [Hc _]. simpl in *. now rewrite Hc.
  - change (descend n (String c (String c' p)))
      with (match dict_get c (children n) with
            | Some n' => descend n' (String c' p)
            | None => None
            end) in H.
    destruct (dict_get c (children n)) as [n' |] eqn:Hg; [| discriminate].
    assert (Hn' : wf n').
    { destruct Hn as [c0 e0 kids _ Hk]. simpl in Hg.
      apply dict_get_In in Hg. rewrite List.Forall_forall in Hk. now destruct (Hk _ Hg). }
    change (drop_last (String c (String c' p)))
      with (String c (drop_last (String c' p))).
    simpl. f_equal. exact (IH c' n' m Hn' H).
Qed.

(** What the depth-first search collects below a node. *)
Lemma depth_first_search_spec :
  forall n, wf n -> forall pre k,
    In k (depth_first_search n pre) <->
    exists suffix, k = pre ++ character n ++ suffix /\ member n suffix = true.
Proof.
  induction n as [ch e kids IH] using Node_induction.
  intros Hwf pre k. inversion Hwf as [? ? ? Hnd Hk]; subst.
  cbn [depth_first_search character]. rewrite in_app_iff, in_flat_map.
  rewrite List.Forall_forall in IH, Hk. split.
  - intros [He | [[c child] [Hin Hd]]].
    + destruct e; [| contradiction]. destruct He as [<- | []].
      exists "". split; [| reflexivity].
      now rewrite string_app_nil_r.
    + destruct (Hk _ Hin) as [Hc Hw]. cbn [snd fst] in *.
      apply (IH _ Hin Hw) in Hd as [suf [-> Hm]]. cbn [snd fst] in *.
      exists (String c suf). split.
      * rewrite Hc. now rewrite !string_app_assoc.
      * unfold member. cbn [descend children]. now rewrite (In_dict_get _ _ _ Hnd Hin).
  - intros [suf [-> Hm]]. destruct suf as [| c suf].
    + left. unfold member in Hm. simpl in Hm. subst e. left.
      now rewrite string_app_nil_r.
    + right. unfold member in Hm. cbn [descend children] in Hm.
      destruct (dict_get c kids) as [child |] eqn:Hg; [| discriminate].
      apply dict_get_In in Hg. exists (c, child). split; [exact Hg |].
      destruct (Hk _ Hg) as [Hc Hw]. cbn [snd fst] in *.
      apply (IH _ Hg Hw). cbn [snd fst]. exists suf. split; [| exact Hm].
      rewrite Hc. now rewrite !string_app_assoc.
Qed.

(** The depth-first search lists no key twice. *)
Lemma depth_first_search_NoDup :
  forall n, wf n -> forall pre, List.NoDup (depth_first_search n pre).
Proof.
  induction n as [ch e kids IH] using Node_induction.
  intros Hwf pre. inversion Hwf as [? ? ? Hnd Hk]; subst.
  cbn [depth_first_search].
  assert (Hbelow : forall k kc, In kc kids -> In k (depth_first_search (snd kc) (pre ++ ch)) ->
                   exists suffix, k = (pre ++ ch) ++ String (fst kc) suffix).
  { intros k kc Hin Hd. rewrite List.Forall_forall in Hk. destruct (Hk _ Hin) as [Hc Hw].
    apply (depth_first_search_spec _ Hw) in Hd as [suffix [-> _]].
    exists suffix. now rewrite Hc. }
  apply List.NoDup_app.
  - destruct e; repeat constructor. simpl. tauto.
  - clear Hwf. induction kids as [| [c child] kids IHkids]; cbn [flat_map]; [constructor |].
    inversion Hnd as [| ? ? Hc Hnd']; subst.
    inversion IH as [| ? ? IHchild IH']; subst.
    inversion Hk as [| ? ? [_ Hwchild] Hk']; subst.
    apply List.NoDup_app.
    + now apply IHchild.
    + apply IHkids; try assumption. intros k kc Hin. apply Hbelow. now right.
    + intros k Hin1 Hin2.
      destruct (Hbelow k (c, child) (or_introl eq_refl) Hin1) as [s1 H1].
      apply in_flat_map in Hin2 as [kc [Hin Hd]].
      destruct (Hbelow k kc (or_intror Hin) Hd) as [s2 H2].
      rewrite H1 in H2. apply string_app_inv_head in H2. injection H2 as Hfst _.
      apply Hc. cbn [fst] in Hfst. rewrite Hfst. now apply in_map.
  - intros k Hin1 Hin2. destruct e; [| contradiction]. destruct Hin1 as [<- | []].
    apply in_flat_map in Hin2 as [kc [Hin Hd]].
    destruct (Hbelow _ kc Hin Hd) as [suffix H].
    rewrite <- (string_app_nil_r (pre ++ ch)) in H at 1.
    apply string_app_inv_head in H. discriminate H.
Qed.

(** *** Queries *)

Lemma In_sorted_reverse (l : list string) (k : string) :
  In k (sorted_reverse l) <-> In k l.
Proof.
  unfold sorted_reverse. split; apply Permutation_in;
    [apply Permutation_sym |]; apply DescSort.Permuted_sort.
Qed.

Lemma query_spec (t : Trie) (p k : string) :
  wf (root t) -> character (root t) = "" ->
  In k (snd (query t p)) <-> is_prefix p k /\ member (root t) k = true.
Proof.
  intros Hwf Hroot. unfold query.
  destruct (descend (root t) p) as [m |] eqn:Hd; cbn [snd].
  - rewrite In_sorted_reverse, (depth_first_search_spec m (wf_descend _ _ _ Hwf Hd)).
    assert (Hp : drop_last p ++ character m = p).
    { destruct p as [| c p]; [| exact (descend_drop_last _ _ _ _ Hwf Hd)].
      simpl in Hd. injection Hd as <-. exact Hroot. }
    split.
    + intros [suf [-> Hm]]. rewrite <- string_app_assoc, Hp. split; [now exists suf |].
      now rewrite member_app, Hd.
    + intros [[suf ->] Hm]. exists suf. rewrite <- string_app_assoc, Hp.
      split; [reflexivity |]. now rewrite member_app, Hd in Hm.
  - split; [contradiction |]. intros [[suf ->] Hm].
    rewrite member_app, Hd in Hm. discriminate.
Qed.

Lemma query_sorted (t : Trie) (p : string) :
  Sorted.Sorted (fun a b => String.leb b a = true) (snd (query t p)).
Proof.
  unfold query. destruct (descend (root t) p); cbn [snd]; [| constructor].
  exact (DescSort.Sorted_sort _).
Qed.

Lemma query_NoDup (t : Trie) (p : string) :
  wf (root t) -> List.NoDup (snd (query t p)).
Proof.
  intros Hwf. unfold query.
  destruct (descend (root t) p) as [m |] eqn:Hd; cbn [snd]; [| constructor].
  eapply Permutation_NoDup; [apply DescSort.Permuted_sort |].
  apply depth_first_search_NoDup. exact (wf_descend _ _ _ Hwf Hd).
Qed.

(** *** Sequences of insertions *)

Lemma root_insert_all (ks : list string) :
  forall t disk, root (fst (insert_all t disk ks)) = fold_left insert_from ks (root t).
Proof.
  unfold insert_all. induction ks as [| k ks IH]; intros t disk; [reflexivity |].
  simpl. unfold insert at 2. cbn [fst snd]. now rewrite IH.
Qed.

Lemma member_fold_insert (ks : list string) :
  forall n s, member (fold_left insert_from ks n) s = true <->
              In s ks \/ member n s = true.
Proof.
  induction ks as [| k ks IH]; intros n s; simpl; [tauto |].
  rewrite IH, member_insert_from, orb_true_iff, String.eqb_eq. intuition congruence.
Qed.

Lemma wf_fold_insert (ks : list string) :
  forall n, wf n -> wf (fold_left insert_from ks n).
Proof.
  induction ks as [| k ks IH]; intros n Hn; simpl; [exact Hn |].
  apply IH. now apply wf_insert_from.
Qed.

Lemma character_fold_insert (ks : list string) :
  forall n, character (fold_left insert_from ks n) = character n.
Proof.
  induction ks as [| k ks IH]; intros n; simpl; [reflexivity |].
  now rewrite IH, insert_from_character.
Qed.

Lemma wf_Node_init (c : string) : wf (Node_init c).
Proof. constructor; constructor. Qed.

(** C6: after inserting the keys [ks] into a fresh trie, the query for
    any prefix [p] of an inserted key [k] contains [k]; the query for
    the empty prefix returns exactly the inserted keys; and every query
    result is in descending lexicographic order, with no key twice. *)
Theorem trie_query_prefix (ks : list string) (disk : files) :
  let t := fst (insert_all (Trie_init None disk) disk ks) in
  (forall k p, In k ks -> is_prefix p k -> In k (snd (query t p))) /\
  (forall k, In k (snd (query t "")) <-> In k ks) /\
  (forall p, Sorted.Sorted (fun a b => String.leb b a = true) (snd (query t p))) /\
  (forall p, List.NoDup (snd (query t p))).
Proof.
  intros t.
  assert (Hroot : root t = fold_left insert_from ks (Node_init "")).
  { unfold t. now rewrite root_insert_all. }
  assert (Hwf : wf (root t)).
  { rewrite Hroot. apply wf_fold_insert, wf_Node_init. }
  assert (Hch : character (root t) = "").
  { rewrite Hroot. now rewrite character_fold_insert. }
  assert (Hmem : forall s, member (root t) s = true <-> In s ks).
  { intros s. rewrite Hroot, member_fold_insert, member_fresh. intuition discriminate. }
  split; [| split; [| split]].
  - intros k p Hk Hp. apply query_spec; [assumption .. |]. split; [exact Hp |].
    now apply Hmem.
  - intros k. rewrite query_spec by assumption. rewrite Hmem.
    split; [tauto |]. intros Hk. split; [now exists k | exact Hk].
  - intros p. apply query_sorted.
  - intros p. now apply query_NoDup.
Qed.

Lemma trie_query_prefix_witness :
  In "exp/run1/latency"
    (snd (query (fst (insert_all (Trie_init None ∅) ∅
                        ["exp/run1/latency"; "exp/run2/latency"]))
            "exp/run1")).
Proof.
  apply (proj1 (trie_query_prefix ["exp/run1/latency"; "exp/run2/latency"] ∅)).
  - simpl. tauto.
  - exists "/latency". reflexivity.
Defined.

(** *** The table store and the functions of the module *)

(** What happens to the HDF5 file. *)
Inductive store_event : Type :=
| HDFOpen (name : string)
| HDFPut (key : string)
| HDFGet (key : string)
| HDFClose.

(** The files the module works on: the pickled tries and the tables of
    the HDF5 store. *)
Record World : Type := mkWorld {
  disk : files;
  hdf : gmap string DataFrame
}.

Definition empty_world : World := mkWorld ∅ ∅.

Section Persistence.

(** [TRIE_NAME] and [STORAGE_NAME] come from the settings module, which
    is not among the sources: any two file names. *)
Variables TRIE_NAME STORAGE_NAME : string.

(** [Trie()], with the default [disk_name=TRIE_NAME]. *)
Definition Trie_default (w : World) : Trie := Trie_init (Some TRIE_NAME) (disk w).

(** [write_dataframe]. *)
Definition write_dataframe (w : World) (dataframe : DataFrame)
    (experiment_key run_key response_key : string) : list store_event * World :=
  let key := construct_key experiment_key run_key response_key in
  let hdf' := <[key := dataframe]> (hdf w) in
  let trie := Trie_default w in
  let (_, disk') := insert trie key (disk w) in
  ([HDFOpen STORAGE_NAME; HDFPut key; HDFClose], mkWorld disk' hdf').

(** [get_dataframe]: the accesses to the table store and the outcome;
    [ok None] is the implicit [return None]. *)
Definition get_dataframe (w : World) (key : string)
    : list store_event * result (option DataFrame) :=
  let trie := Trie_default w in
  let results := snd (query trie key) in
  match results with
  | [] => ([], ok None)
  | _ :: _ =>
      ([HDFOpen STORAGE_NAME; HDFGet key; HDFClose],
       match hdf w !! key with
       | Some df => ok (Some df)
       | None => raise (KeyError key)
       end)
  end.

(** One call of [write_dataframe]: the frame and the three parts of its key. *)
Definition write_call : Type := (DataFrame * (string * string * string))%type.

Definition key_of (c : write_call) : string :=
  let '(_, (e, r, v)) := c in construct_key e r v.

(** The world after a sequence of calls of [write_dataframe]. *)
Definition after_writes (w : World) (calls : list write_call) : World :=
  fold_left
    (fun w c => let '(df, (e, r, v)) := c in snd (write_dataframe w df e r v))
    calls w.

(** What [Trie()] loads stays a well-formed trie of written keys. *)
Definition trie_of_keys (w : World) (ks : list string) : Prop :=
  wf (root (Trie_default w)) /\
  character (root (Trie_default w)) = "" /\
  forall s, member (root (Trie_default w)) s = true -> In s ks.

Lemma trie_of_keys_empty : trie_of_keys empty_world [].
Proof.
  unfold trie_of_keys, Trie_default, Trie_init, deserialize, bound_file.
  cbn [disk_name empty_world disk].
  destruct TRIE_NAME; [| rewrite lookup_empty]; cbn [root].
  all: split; [apply wf_Node_init | split; [reflexivity |]].
  all: intros s0; rewrite member_fresh; discriminate.
Qed.

Lemma trie_of_keys_write (w : World) (ks : list string) df e r v :
  trie_of_keys w ks ->
  trie_of_keys (snd (write_dataframe w df e r v)) (ks ++ [construct_key e r v])%list.
Proof.
  intros (Hwf & Hch & Hmem).
  unfold trie_of_keys, write_dataframe, insert, serialize, Trie_default in *.
  cbn [snd disk]. unfold Trie_init, deserialize, bound_file in *.
  cbn [disk_name root keys] in *.
  destruct TRIE_NAME as [| c name] eqn:Hname.
  - cbn [root] in *. split; [assumption | split; [assumption |]].
    intros s Hs. apply in_or_app. left. now apply Hmem.
  - destruct (disk w !! String c name) as [r0 |] eqn:Hfile;
      cbn [root disk_name] in *; rewrite lookup_insert_eq; cbn [root].
    + split; [| split].
      * now apply wf_insert_from.
      * now rewrite insert_from_character.
      * intros s. rewrite member_insert_from, orb_true_iff, String.eqb_eq.
        intros [-> | Hs]; apply in_or_app; [right; now left | left; now apply Hmem].
    + split; [| split].
      * now apply wf_insert_from.
      * now rewrite insert_from_character.
      * intros s. rewrite member_insert_from, orb_true_iff, String.eqb_eq.
        intros [-> | Hs]; apply in_or_app; [right; now left | left; now apply Hmem].
Qed.

Lemma trie_of_keys_after_writes (calls : list write_call) :
  forall w ks, trie_of_keys w ks ->
               trie_of_keys (after_writes w calls) (ks ++ map key_of calls)%list.
Proof.
  unfold after_writes.
  induction calls as [| [df [[e r] v]] calls IH]; intros w ks Hw; simpl.
  - now rewrite app_nil_r.
  - apply (trie_of_keys_write w ks df e r v) in Hw. apply IH in Hw.
    now rewrite <- app_assoc in Hw.
Qed.

(** C10: when the trie query for [key] is empty, [get_dataframe]
    returns [None] without raising and without touching the table
    store; the table store is opened only when the query is non-empty;
    and in every world produced by calls of [write_dataframe] this is
    the case for every [key] that is a prefix of no written key. *)
Theorem get_dataframe_unknown_key (w : World) (key : string) :
  (snd (query (Trie_default w) key) = [] -> get_dataframe w key = ([], ok None)) /\
  (fst (get_dataframe w key) <> [] -> snd (query (Trie_default w) key) <> []) /\
  (forall calls,
     w = after_writes empty_world calls ->
     (forall c, In c calls -> ~ is_prefix key (key_of c)) ->
     get_dataframe w key = ([], ok None)).
Proof.
  assert (Hempty : snd (query (Trie_default w) key) = [] ->
                   get_dataframe w key = ([], ok None)).
  { unfold get_dataframe. now intros ->. }
  split; [exact Hempty | split].
  - unfold get_dataframe. destruct (snd (query (Trie_default w) key)); simpl; congruence.
  - intros calls -> Hnone. apply Hempty.
    destruct (trie_of_keys_after_writes calls empty_world [] trie_of_keys_empty)
      as (Hwf & Hch & Hmem). simpl in Hmem.
    destruct (snd (query _ key)) as [| k rest] eqn:Hq; [reflexivity |].
    exfalso.
    assert (Hk : In k (snd (query (Trie_default (after_writes empty_world calls)) key)))
      by (rewrite Hq; now left).
    apply query_spec in Hk as [Hp Hm]; [| assumption ..].
    apply Hmem, in_map_iff in Hm as [c [<- Hc]]. exact (Hnone c Hc Hp).
Qed.

End Persistence.

Lemma get_dataframe_unknown_key_witness :
  get_dataframe "trie.pkl" "store.h5"
    (after_writes "trie.pkl" "store.h5" empty_world
       [([("timestamp", [CInt 1])], ("exp", "run1", "latency"))])
    "not/in/store" = ([], ok None).
Proof.
  eapply (proj2 (proj2 (get_dataframe_unknown_key "trie.pkl" "store.h5" _ "not/in/store"))).
  - reflexivity.
  - intros c [<- | []] [suffix H]. vm_compute in H. discriminate H.
Defined.

End Store.

(** ** orchestration.py *)

Module Orchestration.

Local Open Scope string_scope.

(** The attributes of [DockerComposeOrchestrator] the modelled methods
    read. *)
Record DockerComposeOrchestrator : Type := mkOrchestrator {
  docker_service_names : gset string;
  service_container_map : gmap string string;
  exclude : list string;
  include : list string
}.

(** Truth value of a Python list. *)
Definition truthy {A} (l : list A) : bool :=
  match l with
  | [] => false
  | _ :: _ => true
  end.

(** [_build_sue_service_names]: the value assigned to
    [self.sue_service_names]. *)
Definition _build_sue_service_names (self : DockerComposeOrchestrator) : gset string :=
  if truthy (include self) && truthy (exclude self) then
    let services := docker_service_names self ∩ list_to_set (include self) in
    services ∖ list_to_set (exclude self)
  else if truthy (exclude self) then
    docker_service_names self ∖ list_to_set (exclude self)
  else if truthy (include self) then
    docker_service_names self ∩ list_to_set (include self)
  else
    docker_service_names self.

(** *** Readiness *)

(** A container object of the Docker SDK: the state it was loaded with. *)
Record Container : Type := mkContainer {
  container_name : string;
  status : string
}.

(** The Docker SDK, which is not part of the sources.  Time is counted
    in seconds since [ready] was called.  [containers_get t name] is
    [docker_client.containers.get(container_id=name)] at time [t];
    [reload t c] is the value of the expression [c.reload()] at time
    [t], [None] standing for Python's [None]. *)
Record DockerClient : Type := mkDockerClient {
  containers_get : nat -> string -> result Container;
  reload : nat -> Container -> result (option Container)
}.

Section Ready.

Variable self : DockerComposeOrchestrator.
Variable docker_client : DockerClient.

(** The [while] loop of [ready] for one container.  [container] is the
    Python variable, which may hold [None]; [now] is the clock.  Every
    iteration sleeps one second.  The result is the clock when the loop
    is left, or the exception that escapes it; [None] when [fuel]
    iterations were not enough. *)
Fixpoint wait_running (fuel : nat) (timeout : float) (container : option Container)
    (elapsed : Z) (now : nat) : option (result nat) :=
  match container with
  | None => Some (raise (AttributeError "'NoneType' object has no attribute 'status'"))
  | Some c =>
      if negb (String.eqb (status c) "running") && int_ltb_float elapsed timeout
      then
        match fuel with
        | O => None
        | S fuel' =>
            match reload docker_client (S now) c with
            | inl e => Some (raise e)
            | inr container' =>
                wait_running fuel' timeout container' (elapsed + 1) (S now)
            end
        end
      else Some (ok now)
  end.

(** [except NotFound as e: raise OrchestrationException(...)]. *)
Definition translate_not_found {A} (r : result A) : result A :=
  match r with
  | inl (NotFound e) => raise (OrchestrationException "Error while building the sue" e)
  | other => other
  end.

(** The body of the [for] loop of [ready] for one service. *)
Definition ready_one (fuel : nat) (timeout : float) (service_name : string) (now : nat)
    : option (result nat) :=
  match service_container_map self !! service_name with
  | None => Some (raise (KeyError service_name))
  | Some name =>
      match containers_get docker_client now name with
      | inl e => Some (translate_not_found (raise e))
      | inr container =>
          match wait_running fuel timeout (Some container) 0 now with
          | None => None
          | Some r => Some (translate_not_found r)
          end
      end
  end.

(** The [for] loop: the list [all_ready] it builds. *)
Fixpoint ready_loop (fuel : nat) (timeout : float) (services : list string)
    (all_ready : list bool) (now : nat) : option (result (list bool)) :=
  match services with
  | [] => Some (ok all_ready)
  | service_name :: services' =>
      match ready_one fuel timeout service_name now with
      | None => None
      | Some (inl e) => Some (raise e)
      | Some (inr now') =>
          ready_loop fuel timeout services' (all_ready ++ [true])%list now'
      end
  end.

(** [ready(expected_services, timeout)].  [expected_services] is [[]]
    for the default [None]; the services of the compose file are then
    polled, in the order the set enumerates them. *)
Definition ready (fuel : nat) (expected_services : list string) (timeout : float)
    : option (result bool) :=
  let expected_services :=
    if truthy expected_services then expected_services
    else elements (docker_service_names self) in
  match ready_loop fuel timeout expected_services [] 0 with
  | None => None
  | Some (inl e) => Some (raise e)
  | Some (inr all_ready) => Some (ok (forallb id all_ready))
  end.

End Ready.

(** C8: the effective service set is [services ∩ include ∖ exclude]
    when include and exclude are disjoint and both non-empty,
    [services ∖ exclude] with only exclude, [services ∩ include] with
    only include, and [services] with neither. *)
Theorem effective_service_set (self : DockerComposeOrchestrator) :
  let services := docker_service_names self in
  let inc : gset string := list_to_set (include self) in
  let exc : gset string := list_to_set (exclude self) in
  let result := _build_sue_service_names self in
  (include self <> [] -> exclude self <> [] -> inc ## exc ->
   result = (services ∩ inc) ∖ exc) /\
  (include self = [] -> exclude self <> [] -> result = services ∖ exc) /\
  (include self <> [] -> exclude self = [] -> result = services ∩ inc) /\
  (include self = [] -> exclude self = [] -> result = services).
Proof.
  intros services inc exc result. subst result services inc exc.
  unfold _build_sue_service_names.
  destruct (include self) as [| i incl], (exclude self) as [| x excl]; cbn [truthy andb];
    repeat split; intros; congruence.
Qed.

Lemma effective_service_set_witness :
  _build_sue_service_names
    (mkOrchestrator {[ "frontend"; "otelcol"; "loadgenerator" ]} ∅
       ["loadgenerator"] ["otelcol"])
  = ({[ "frontend"; "otelcol"; "loadgenerator" ]} ∩ list_to_set ["otelcol"])
      ∖ list_to_set ["loadgenerator"].
Proof.
  pose proof (proj1 (effective_service_set
                       (mkOrchestrator {[ "frontend"; "otelcol"; "loadgenerator" ]} ∅
                          ["loadgenerator"] ["otelcol"]))) as H.
  cbn [include exclude docker_service_names] in H. apply H.
  - discriminate.
  - discriminate.
  - set_solver.
Defined.

(** The same set in the order the specification of [orchestrate] gives:
    first remove the excluded services, then keep the included ones when
    there are any. *)
Lemma effective_service_set_exclude_first (self : DockerComposeOrchestrator) :
  _build_sue_service_names self =
  if truthy (include self)
  then (docker_service_names self ∖ list_to_set (exclude self)) ∩ list_to_set (include self)
  else docker_service_names self ∖ list_to_set (exclude self).
Proof.
  unfold _build_sue_service_names.
  destruct (include self) as [| i incl], (exclude self) as [| x excl]; cbn [truthy andb].
  all: set_solver.
Qed.

(** *** [ready] *)

Lemma ready_loop_all_true (self : DockerComposeOrchestrator) (client : DockerClient)
    (fuel : nat) (timeout : float) (services : list string) :
  forall all_ready now l,
    ready_loop self client fuel timeout services all_ready now = Some (ok l) ->
    forallb id all_ready = true -> forallb id l = true.
Proof.
  induction services as [| service_name services IH]; intros all_ready now l; simpl.
  - now intros [= <-].
  - destruct (ready_one self client fuel timeout service_name now) as [[e | now'] |];
      try discriminate.
    intros H Hall. apply (IH _ _ _ H). rewrite forallb_app, Hall. reflexivity.
Qed.

(** Whatever the containers do, [ready] never returns [False]. *)
Lemma ready_never_false (self : DockerComposeOrchestrator) (client : DockerClient)
    (fuel : nat) (expected_services : list string) (timeout : float) (b : bool) :
  ready self client fuel expected_services timeout = Some (ok b) -> b = true.
Proof.
  unfold ready.
  destruct (ready_loop _ _ _ _ _ _ _) as [[e | l] |] eqn:Hl; try discriminate.
  intros [= <-]. now apply (ready_loop_all_true _ _ _ _ _ _ _ _ Hl).
Qed.

(** A missing container makes [ready] fail with an orchestration error. *)
Lemma ready_missing_container (self : DockerComposeOrchestrator) (client : DockerClient)
    (fuel : nat) (service_name name what : string) (rest : list string) (timeout : float) :
  service_container_map self !! service_name = Some name ->
  containers_get client 0 name = raise (NotFound what) ->
  ready self client fuel (service_name :: rest) timeout =
  Some (raise (OrchestrationException "Error while building the sue" what)).
Proof.
  intros Hmap Hget. unfold ready. cbn [truthy ready_loop]. unfold ready_one.
  now rewrite Hmap, Hget.
Qed.

(** An orchestrator with the single service [frontend], and a Docker
    daemon on which its container exists and stays in state [exited]. *)
Definition frontend_only : DockerComposeOrchestrator :=
  mkOrchestrator {[ "frontend" ]} {[ "frontend" := "frontend" ]} [] [].

Definition exited_forever : DockerClient :=
  mkDockerClient
    (fun _ name => ok (mkContainer name "exited"))
    (fun _ c => ok (Some (mkContainer (container_name c) "exited"))).

(** C2: with a timeout of 0 seconds, and also after polling for a
    timeout of 60 seconds, [ready] returns [True] although the polled
    container is in state [exited] throughout. *)
Theorem ready_true_while_not_running :
  ready frontend_only exited_forever 0 [] (Z2F 0) = Some (ok true) /\
  ready frontend_only exited_forever 60 [] (Z2F 60) = Some (ok true) /\
  forall t, containers_get exited_forever t "frontend" = ok (mkContainer "frontend" "exited").
Proof.
  split; [| split].
  - vm_compute. reflexivity.
  - vm_compute. reflexivity.
  - intros t. reflexivity.
Qed.

End Orchestration.

(** ** loadgen.py *)

Module Loadgen.

(** One entry of [stages]. *)
Record Stage : Type := mkStage {
  duration : Z;
  users : Z;
  spawn_rate : Z
}.

(** [CustomLoadTestShape.tick], at the elapsed time [run_time] that
    [self.get_run_time()] returns; [None] is the implicit [return None]
    after the loop. *)
Fixpoint tick (stages : list Stage) (run_time : float) : option (Z * Z) :=
  match stages with
  | [] => None
  | stage :: stages' =>
      if float_ltb_int run_time (duration stage)
      then Some (users stage, spawn_rate stage)
      else tick stages' run_time
  end.

(** [self.shape_instance] as [_read_config] sets it: the shape built
    from the stages when [self.stages] is truthy, else [None].
    [stages] is [None] when the section has no [stages] key. *)
Definition shape_instance (stages : option (list Stage)) : option (list Stage) :=
  match stages with
  | Some (stage :: stages') => Some (stage :: stages')
  | _ => None
  end.

(** How [start] starts the local runner. *)
Inductive started : Type :=
| start_shape (stages : list Stage)
| start_fixed (user_count spawn_rate : Z).

(** [LoadGenerator.start]. *)
Definition start (stages : option (list Stage)) : started :=
  match shape_instance stages with
  | Some shape => start_shape shape
  | None => start_fixed 1 1
  end.

(** The shape as the claim words it: the first stage whose cumulative
    duration, the sum of its duration and of those before it, exceeds
    the elapsed time. *)
Fixpoint tick_cumulative (before : Z) (stages : list Stage) (run_time : float)
    : option (Z * Z) :=
  match stages with
  | [] => None
  | stage :: stages' =>
      if float_ltb_int run_time (before + duration stage)
      then Some (users stage, spawn_rate stage)
      else tick_cumulative (before + duration stage) stages' run_time
  end.

(** The stages of the specification used by the unit tests. *)
Definition mock_stages : list Stage := [mkStage 5 1 1; mkStage 15 10 2].

(** C9, as stated, fails: sixteen seconds into the stages of the test
    specification the code returns nothing, while the second stage has
    a cumulative duration of twenty seconds. *)
Lemma tick_is_not_cumulative :
  tick mock_stages 16 = None /\
  tick_cumulative 0 mock_stages 16 = Some (10, 2)%Z /\
  tick mock_stages 16 <> tick_cumulative 0 mock_stages 16.
Proof.
  split; [| split].
  - vm_compute. reflexivity.
  - vm_compute. reflexivity.
  - vm_compute. discriminate.
Qed.

(** C9, amended: [tick] returns the users and spawn rate of the first
    stage, in list order, whose own [duration] exceeds the elapsed time,
    and nothing when no stage does; without stages the generator starts
    one user at spawn rate one. *)
Theorem tick_first_stage_beyond_run_time (stages : list Stage) (run_time : float) :
  (forall before stage after,
     stages = (before ++ stage :: after)%list ->
     Forall (fun s => float_ltb_int run_time (duration s) = false) before ->
     float_ltb_int run_time (duration stage) = true ->
     tick stages run_time = Some (users stage, spawn_rate stage)) /\
  (Forall (fun s => float_ltb_int run_time (duration s) = false) stages ->
   tick stages run_time = None) /\
  start None = start_fixed 1 1 /\
  start (Some []) = start_fixed 1 1.
Proof.
  split; [| split; [| split; reflexivity]].
  - intros before stage after -> Hbefore Hstage.
    induction Hbefore as [| s before Hs _ IH]; simpl.
    + now rewrite Hstage.
    + now rewrite Hs.
  - induction 1 as [| s rest Hs _ IH]; simpl; [reflexivity |].
    now rewrite Hs.
Qed.

Lemma tick_first_stage_beyond_run_time_witness :
  tick mock_stages 7 = Some (10, 2)%Z.
Proof.
  apply (proj1 (tick_first_stage_beyond_run_time mock_stages 7)
           [mkStage 5 1 1] (mkStage 15 10 2) []).
  - reflexivity.
  - repeat constructor.
  - vm_compute. reflexivity.
Defined.

End Loadgen.

(** ** responses.py *)

Module Responses.

Import Frame.
Local Open Scope string_scope.

(** The two classes of response variables, with the attribute that is
    particular to each. *)
Inductive response_class : Type :=
| MetricResponseVariable (metric_name : string)
| TraceResponseVariable (service_name : string).

(** The attributes of a response variable.  [data] is [None] until the
    variable has been observed. *)
Record ResponseVariable : Type := mkResponse {
  class_ : response_class;
  name : string;
  start : float;
  end_ : float;
  data : option DataFrame
}.

(** numpy compares the cells of a numeric column with a Python float as
    binary64 values; a column of strings cannot be compared. *)
Definition cell_as_float (c : cell) : result float :=
  match c with
  | CFloat f => ok f
  | CInt z => ok (Z2F z)
  | CStr _ => raise (TypeError "'<=' not supported between instances of 'float' and 'str'")
  end.

Fixpoint column_as_floats (col : list cell) : result (list float) :=
  match col with
  | [] => ok []
  | c :: col' =>
      let? f := cell_as_float c in
      let? fs := column_as_floats col' in
      ok (f :: fs)
  end.

(** [x <= column], [column <= x] and [column >= x], element by element. *)
Definition scalar_le_column (x : float) (col : list cell) : result (list bool) :=
  let? fs := column_as_floats col in ok (map (fun f => (x <=? f)%float) fs).

Definition column_le_scalar (col : list cell) (x : float) : result (list bool) :=
  let? fs := column_as_floats col in ok (map (fun f => (f <=? x)%float) fs).

Definition column_ge_scalar (col : list cell) (x : float) : result (list bool) :=
  let? fs := column_as_floats col in ok (map (fun f => (x <=? f)%float) fs).

(** [a & b] on two masks of the same length. *)
Fixpoint mask_and (a b : list bool) : list bool :=
  match a, b with
  | x :: a', y :: b' => (x && y) :: mask_and a' b'
  | _, _ => []
  end.

(** [np.where(predicate, x, y)] for two strings. *)
Definition np_where (predicate : list bool) (x y : string) : list cell :=
  map (fun b : bool => CStr (if b then x else y)) predicate.

(** Subscripting [self.data] when the variable was never observed. *)
Definition subscript (data : option DataFrame) (column : string) : result (list cell) :=
  match data with
  | None => raise (TypeError "'NoneType' object is not subscriptable")
  | Some df => get_column df column
  end.

(** [MetricResponseVariable.label]: the frame [self.data] is afterwards. *)
Definition label_metric (data : option DataFrame) (treatment_start treatment_end : float)
    (label_column label : string) : result DataFrame :=
  let? after_start :=
    (let? timestamps := subscript data "timestamp" in
     scalar_le_column treatment_start timestamps) in
  let? before_end :=
    (let? timestamps := subscript data "timestamp" in
     column_le_scalar timestamps treatment_end) in
  let predicate := mask_and after_start before_end in
  match data with
  | None => raise (TypeError "'NoneType' object does not support item assignment")
  | Some df => ok (set_column df label_column (np_where predicate label "NoTreatment"))
  end.

(** [TraceResponseVariable.label]. *)
Definition label_trace (data : option DataFrame) (treatment_start treatment_end : float)
    (label_column label : string) : result DataFrame :=
  let scaled_treatment_start := Utils.to_microseconds treatment_start in
  let scaled_treatment_end := Utils.to_microseconds treatment_end in
  let? after_start :=
    (let? start_times := subscript data "start_time" in
     column_ge_scalar start_times scaled_treatment_start) in
  let? before_end :=
    (let? start_times := subscript data "start_time" in
     column_le_scalar start_times scaled_treatment_end) in
  let predicate := mask_and after_start before_end in
  match data with
  | None => raise (TypeError "'NoneType' object does not support item assignment")
  | Some df => ok (set_column df label_column (np_where predicate label "NoTreatment"))
  end.

(** [response_variable.label(...)], dispatched on the class; the
    variable with its relabelled data. *)
Definition label (v : ResponseVariable) (treatment_start treatment_end : float)
    (label_column label : string) : result ResponseVariable :=
  let? df :=
    match class_ v with
    | MetricResponseVariable _ =>
        label_metric (data v) treatment_start treatment_end label_column label
    | TraceResponseVariable _ =>
        label_trace (data v) treatment_start treatment_end label_column label
    end in
  ok (mkResponse (class_ v) (name v) (start v) (end_ v) (Some df)).

(** *** The labelling property *)

(** The column that holds a row's timestamp, and the unit it is in. *)
Definition timestamp_column (v : ResponseVariable) : string :=
  match class_ v with
  | MetricResponseVariable _ => "timestamp"
  | TraceResponseVariable _ => "start_time"
  end.

(** A treatment timestamp, in seconds, in the unit of the variable:
    seconds for metrics, microseconds for traces. *)
Definition native_unit (v : ResponseVariable) (seconds : float) : float :=
  match class_ v with
  | MetricResponseVariable _ => seconds
  | TraceResponseVariable _ => Utils.to_microseconds seconds
  end.

Definition numeric (c : cell) : Prop :=
  match c with
  | CStr _ => False
  | _ => True
  end.

(** The timestamp a numeric cell holds. *)
Definition timestamp_of (c : cell) : float :=
  match c with
  | CFloat f => f
  | CInt z => Z2F z
  | CStr _ => nan
  end.

(** [x] lies in the closed interval from [lo] to [hi]. *)
Definition in_closed_interval (lo hi x : float) : bool :=
  (lo <=? x)%float && (x <=? hi)%float.

Lemma get_set_column_same (df : DataFrame) (n : string) (col : list cell) :
  get_column (set_column df n col) n = ok col.
Proof.
  induction df as [| [m c] df IH]; simpl.
  - now rewrite String.eqb_refl.
  - destruct (String.eqb m n) eqn:E; simpl; rewrite E; [reflexivity | exact IH].
Qed.

Lemma get_set_column_other (df : DataFrame) (n m : string) (col : list cell) :
  n <> m -> get_column (set_column df n col) m = get_column df m.
Proof.
  intros Hne. induction df as [| [k c] df IH]; simpl.
  - now rewrite (proj2 (String.eqb_neq n m) Hne).
  - destruct (String.eqb_spec k n) as [-> | Hk]; simpl.
    + now rewrite (proj2 (String.eqb_neq n m) Hne).
    + now rewrite IH.
Qed.

Lemma column_as_floats_numeric (col : list cell) :
  Forall numeric col -> column_as_floats col = ok (map timestamp_of col).
Proof.
  induction 1 as [| c col Hc _ IH]; simpl; [reflexivity |].
  rewrite IH. destruct c; simpl; [reflexivity | reflexivity | contradiction].
Qed.

Lemma mask_and_map {A} (f g : A -> bool) (l : list A) :
  mask_and (map f l) (map g l) = map (fun x => f x && g x) l.
Proof. induction l as [| x l IH]; simpl; [reflexivity | now rewrite IH]. Qed.

(** The column a labelling writes: one label per row, chosen by the
    row's timestamp. *)
Definition label_cells (lo hi : float) (label : string) (timestamps : list cell) : list cell :=
  map (fun x => CStr (if in_closed_interval lo hi (timestamp_of x)
                      then label else "NoTreatment")) timestamps.

Lemma label_writes_label_cells (v : ResponseVariable) (df : DataFrame) (ts : list cell)
    (treatment_start treatment_end : float) (label_column lbl : string) :
  data v = Some df ->
  get_column df (timestamp_column v) = ok ts ->
  Forall numeric ts ->
  label v treatment_start treatment_end label_column lbl =
  ok (mkResponse (class_ v) (name v) (start v) (end_ v)
        (Some (set_column df label_column
                 (label_cells (native_unit v treatment_start)
                    (native_unit v treatment_end) lbl ts)))).
Proof.
  intros Hdata Hts Hnum.
  unfold label, timestamp_column, native_unit, label_cells in *.
  destruct (class_ v) as [metric_name | service_name]; rewrite Hdata.
  - unfold label_metric, subscript, scalar_le_column, column_le_scalar.
    rewrite Hts. unfold ok, rbind.
    rewrite (column_as_floats_numeric _ Hnum). unfold ok.
    rewrite mask_and_map. unfold np_where. rewrite !map_map. reflexivity.
  - unfold label_trace, subscript, column_ge_scalar, column_le_scalar.
    rewrite Hts. unfold ok, rbind.
    rewrite (column_as_floats_numeric _ Hnum). unfold ok.
    rewrite mask_and_map. unfold np_where. rewrite !map_map. reflexivity.
Qed.

(** Labelling only writes the label column. *)
Lemma label_sets_one_column (v v' : ResponseVariable) (df : DataFrame)
    (treatment_start treatment_end : float) (label_column lbl : string) :
  data v = Some df ->
  label v treatment_start treatment_end label_column lbl = ok v' ->
  exists col, data v' = Some (set_column df label_column col).
Proof.
  intros Hdata Hlabel. unfold label in Hlabel. rewrite Hdata in Hlabel.
  destruct (class_ v); unfold label_metric, label_trace in Hlabel.
  all: destruct (rbind (subscript (Some df) _) (fun _ => _ _ _)) as [e | m1];
    [discriminate Hlabel |].
  all: destruct (rbind (subscript (Some df) _) (fun _ => _ _ _)) as [e | m2];
    [discriminate Hlabel |].
  all: cbn [rbind ok] in Hlabel; injection Hlabel as <-; eexists; reflexivity.
Qed.

(** Labelling leaves every other column as it was. *)
Lemma label_other_columns (v v' : ResponseVariable) (df df' : DataFrame)
    (treatment_start treatment_end : float) (label_column lbl other : string) :
  data v = Some df ->
  label v treatment_start treatment_end label_column lbl = ok v' ->
  data v' = Some df' ->
  label_column <> other ->
  get_column df' other = get_column df other.
Proof.
  intros Hdata Hlabel Hdata' Hne.
  destruct (label_sets_one_column _ _ _ _ _ _ _ Hdata Hlabel) as [col Hcol].
  rewrite Hcol in Hdata'. injection Hdata' as <-.
  now apply get_set_column_other.
Qed.

(** C3, as stated, fails for a treatment that is itself called
    [NoTreatment]: the row observed at second 5 holds the treatment's
    name although the treatment ran from second 10 to second 20. *)
Lemma label_of_treatment_named_NoTreatment :
  let v := mkResponse (MetricResponseVariable "latency") "latency" 0 100
             (Some [("timestamp", [CInt 5]); ("latency", [CFloat 1])]) in
  exists v' df',
    label v 10 20 "NoTreatment" "NoTreatment" = ok v' /\
    data v' = Some df' /\
    get_column df' "NoTreatment" = ok [CStr "NoTreatment"] /\
    in_closed_interval (native_unit v 10) (native_unit v 20) (timestamp_of (CInt 5)) = false.
Proof.
  eexists _, _. split; [| split; [| split]].
  - vm_compute. reflexivity.
  - reflexivity.
  - reflexivity.
  - vm_compute. reflexivity.
Qed.

(** C3, amended: for a response variable that was observed, with a
    numeric timestamp column, and a treatment whose name is not the
    literal [NoTreatment], labelling succeeds and leaves a column named
    after the treatment with one value per row; every value is the
    treatment's name or [NoTreatment], and it is the treatment's name
    exactly when the row's timestamp, in the variable's native unit,
    lies in the closed interval from the treatment's start to its end. *)
Theorem label_marks_rows_in_treatment_interval (v : ResponseVariable) (df : DataFrame)
    (ts : list cell) (t_start t_end : float) (t_name : string) :
  data v = Some df ->
  get_column df (timestamp_column v) = ok ts ->
  Forall numeric ts ->
  t_name <> "NoTreatment" ->
  exists v' df' col,
    label v t_start t_end t_name t_name = ok v' /\
    data v' = Some df' /\
    get_column df' t_name = ok col /\
    length col = length ts /\
    forall (i : nat) (c x : cell),
      col !! i = Some c -> ts !! i = Some x ->
      (c = CStr t_name \/ c = CStr "NoTreatment") /\
      (c = CStr t_name <->
       in_closed_interval (native_unit v t_start) (native_unit v t_end)
         (timestamp_of x) = true).
Proof.
  intros Hdata Hts Hnum Hname.
  eexists _, _, _. split; [| split; [| split; [| split]]].
  - exact (label_writes_label_cells v df ts _ _ _ _ Hdata Hts Hnum).
  - reflexivity.
  - apply get_set_column_same.
  - unfold label_cells. now rewrite length_map.
  - intros i c x Hc Hx. unfold label_cells in Hc.
    rewrite list_lookup_fmap, Hx in Hc. injection Hc as <-.
    destruct (in_closed_interval _ _ _).
    + split; [now left | tauto].
    + split; [now right |]. split; [| discriminate].
      intros [= H]. now elim Hname.
Qed.

Lemma label_marks_rows_in_treatment_interval_witness :
  exists v' df' col,
    label (mkResponse (TraceResponseVariable "adservice") "ad_traces" 0 100
             (Some [("span_id", [CStr "a"; CStr "b"]);
                    ("start_time", [CInt 15000000; CInt 25000000]);
                    ("duration", [CInt 120; CInt 80])]))
      10 20 "pause" "pause" = ok v' /\
    data v' = Some df' /\
    get_column df' "pause" = ok col /\
    length col = 2%nat.
Proof.
  destruct (label_marks_rows_in_treatment_interval
              (mkResponse (TraceResponseVariable "adservice") "ad_traces" 0 100
                 (Some [("span_id", [CStr "a"; CStr "b"]);
                        ("start_time", [CInt 15000000; CInt 25000000]);
                        ("duration", [CInt 120; CInt 80])]))
              [("span_id", [CStr "a"; CStr "b"]);
               ("start_time", [CInt 15000000; CInt 25000000]);
               ("duration", [CInt 120; CInt 80])]
              [CInt 15000000; CInt 25000000] 10 20 "pause")
    as (v' & df' & col & H1 & H2 & H3 & H4 & _).
  - reflexivity.
  - reflexivity.
  - repeat constructor.
  - discriminate.
  - exists v', df', col. repeat split; assumption.
Defined.

End Responses.

(** ** models/treatment.py and the experiment specification *)

Module Models.

Local Open Scope string_scope.

(** A value loaded from YAML. *)
#[warnings="-register-all"]
Inductive yaml : Type :=
| YNull
| YBool (b : bool)
| YInt (z : Z)
| YFloat (f : float)
| YStr (s : string)
| YList (items : list yaml)
| YDict (entries : list (string * yaml)).

(** A Python dict with string keys, in insertion order. *)
Definition dict (V : Type) : Type := list (string * V).

Fixpoint dict_get {V} (d : dict V) (key : string) : option V :=
  match d with
  | [] => None
  | (k, v) :: d' => if String.eqb k key then Some v else dict_get d' key
  end.

(** [d[key] = v]. *)
Fixpoint dict_set {V} (d : dict V) (key : string) (v : V) : dict V :=
  match d with
  | [] => [(key, v)]
  | (k, w) :: d' =>
      if String.eqb k key then (k, v) :: d' else (k, w) :: dict_set d' key v
  end.

(** [l.append(x)]. *)
Definition append {A} (l : list A) (x : A) : list A := (l ++ [x])%list.

(** What the runner relies on in a treatment class.  [_validate_params]
    gives the verdict, or the exception that escapes, and the messages
    it appended; [_transform_params] gives the config dict as it leaves
    it and the exception that escapes, if any. *)
Record TreatmentClass : Type := mkTreatmentClass {
  class_name : string;
  _validate_params : dict yaml -> result bool * list string;
  _transform_params : dict yaml -> dict yaml * option exn;
  is_runtime : bool
}.

(** The attributes of a treatment instance.  [config] is the params
    dict of the specification itself, not a copy. *)
Record Treatment : Type := mkTreatment {
  class_of : TreatmentClass;
  name : string;
  config : dict yaml;
  start : option float;
  end_ : option float;
  messages : list string
}.

Definition treatment_type (t : Treatment) : string := class_name (class_of t).

(** ["\n".join(messages)]. *)
Fixpoint join_lines (messages : list string) : string :=
  match messages with
  | [] => ""
  | [m] => m
  | m :: rest => m ++ String "010" (join_lines rest)
  end.

(** [Treatment.__init__]: the params dict as the constructor leaves it,
    and the instance or the exception raised. *)
Definition Treatment_init (cls : TreatmentClass) (config : dict yaml) (name : string)
    : dict yaml * result Treatment :=
  let (validates, messages) := _validate_params cls config in
  match validates with
  | inl e => (config, raise e)
  | inr false =>
      (config,
       raise (OxnException ("Invalid configuration for " ++ class_name cls ++ " provided.")
                (join_lines messages)))
  | inr true =>
      let (config', failure) := _transform_params cls config in
      match failure with
      | Some e => (config', raise e)
      | None => (config', ok (mkTreatment cls name config' None None messages))
      end
  end.

(** One entry of the treatments section: [{name: {action, params}}]. *)
Record TreatmentEntry : Type := mkEntry {
  entry_name : string;
  action : string;
  params : dict yaml
}.

(** The loaded specification, as the syntactic schema admits it.  The
    treatments section is optional. *)
Record Spec : Type := mkSpec {
  responses : yaml;
  treatments : option (list TreatmentEntry);
  sue : yaml;
  loadgen : yaml
}.

(** *** treatments.py: [EmptyTreatment] *)

Definition is_str (v : yaml) : bool :=
  match v with
  | YStr _ => true
  | _ => false
  end.

(** The second loop of [EmptyTreatment._validate_params], over the
    items of the config. *)
Fixpoint Empty_validate_items (items : dict yaml) (messages : list string)
    (bools : list bool) : result (list bool) * list string :=
  match items with
  | [] => (ok bools, messages)
  | (key, value) :: items' =>
      if String.eqb key "duration" then
        match value with
        | YStr s =>
            if negb (Utils.validate_time_string s) then
              Empty_validate_items items'
                (append messages "Parameter duration has to match (\d+)(us|ms|s|m|h|d)")
                (append bools false)
            else Empty_validate_items items' messages bools
        | _ => (raise (TypeError "expected string or bytes-like object"), messages)
        end
      else Empty_validate_items items' messages bools
  end.

Definition Empty_validate_params (config : dict yaml) : result bool * list string :=
  (* for key, value in self.params().items(): the only key is "duration" *)
  let '(messages, bools) :=
    match dict_get config "duration" with
    | None => (["Parameter duration has to be supplied"], [false])
    | Some v =>
        if negb (is_str v)
        then (["Parameter duration has to be of type <class 'str'>"], [])
        else ([], [])
    end in
  let (r, messages') := Empty_validate_items config messages bools in
  (let? bools' := r in ok (forallb id bools'), messages').

Definition Empty_transform_params (config : dict yaml) : dict yaml * option exn :=
  match dict_get config "duration" with
  | Some (YStr relative_time_string) =>
      let relative_time_seconds := Utils.time_string_to_seconds relative_time_string in
      (dict_set config "duration_seconds" (YFloat relative_time_seconds), None)
  | _ => (config, Some (TypeError "expected string or bytes-like object"))
  end.

Definition EmptyTreatment : TreatmentClass :=
  mkTreatmentClass "EmptyTreatment" Empty_validate_params Empty_transform_params true.

(** *** treatments.py: [StressTreatment] *)

Definition is_dict (v : yaml) : bool :=
  match v with
  | YDict _ => true
  | _ => false
  end.

(** Truth value of a YAML value. *)
Definition yaml_truthy (v : yaml) : bool :=
  match v with
  | YNull => false
  | YBool b => b
  | YInt z => negb (z =? 0)%Z
  | YFloat f => negb (f =? 0)%float
  | YStr s => negb (String.eqb s "")
  | YList l => match l with [] => false | _ => true end
  | YDict d => match d with [] => false | _ => true end
  end.

(** The first loop of [StressTreatment._validate_params], for one
    parameter and the test [isinstance] makes for it. *)
Definition Stress_check_param (config : dict yaml) (key : string) (has_type : yaml -> bool)
    (messages : list string) : list string :=
  let messages :=
    match dict_get config key with
    | None =>
        append messages ("Parameter " ++ key ++ " has to be supplied for StressTreatment")
    | Some _ => messages
    end in
  match dict_get config key with
  | Some v =>
      if negb (has_type v)
      then append messages ("Parameter " ++ key ++ " has to be of type type for StressTreatment")
      else messages
  | None => messages
  end.

(** Its second loop, over the items of the config. *)
Fixpoint Stress_validate_items (items : dict yaml) (messages : list string)
    : result unit * list string :=
  match items with
  | [] => (ok tt, messages)
  | (key, value) :: items' =>
      let checked :=
        if String.eqb key "duration" then
          match value with
          | YStr s =>
              if negb (Utils.validate_time_string s)
              then ok (append messages
                         "Parameter duration has to match (\d+)(us|ms|s|m|h|d) for StressTreatment")
              else ok messages
          | _ => raise (TypeError "expected string or bytes-like object")
          end
        else ok messages in
      match checked with
      | inl e => (raise e, messages)
      | inr messages =>
          let messages :=
            if String.eqb key "stressors" && negb (yaml_truthy value)
            then append messages
                   "Parameter stressors has to have at least one stressor for StressTreatment"
            else messages in
          Stress_validate_items items' messages
      end
  end.

Definition Stress_validate_params (config : dict yaml) : result bool * list string :=
  let messages := Stress_check_param config "service_name" is_str [] in
  let messages := Stress_check_param config "stressors" is_dict messages in
  let messages := Stress_check_param config "duration" is_str messages in
  let (r, messages) := Stress_validate_items config messages in
  (let? _ := r in ok (match messages with [] => true | _ => false end), messages).

(** [StressTreatment._transform_params]; the prefixed stressors go to
    an attribute of the instance, not to the config. *)
Definition Stress_transform_params (config : dict yaml) : dict yaml * option exn :=
  match dict_get config "duration" with
  | None => (config, None)
  | Some (YStr relative_time_string) =>
      let relative_time_seconds := Utils.time_string_to_seconds relative_time_string in
      (dict_set config "duration_integer" (YFloat relative_time_seconds), None)
  | Some _ => (config, Some (TypeError "expected string or bytes-like object"))
  end.

Definition StressTreatment : TreatmentClass :=
  mkTreatmentClass "StressTreatment" Stress_validate_params Stress_transform_params false.

End Models.

(** ** runner.py: labelling the observed data *)

Module Labelling.

Import Frame.
Local Open Scope string_scope.

(** The call [response_variable.label(...)] that [_label] makes for
    one treatment and one variable.  A treatment that was never started
    or never ended has [None] for the timestamp, which cannot be
    compared. *)
Definition label_with (treatment : Models.Treatment) (v : Responses.ResponseVariable)
    : result Responses.ResponseVariable :=
  match Models.start treatment, Models.end_ treatment with
  | Some treatment_start, Some treatment_end =>
      Responses.label v treatment_start treatment_end
        (Models.name treatment) (Models.name treatment)
  | _, _ => raise (TypeError "unsupported operand type(s): 'NoneType' and 'float'")
  end.

(** The inner loop of [_label], over the variables of the observer. *)
Fixpoint label_variables (treatment : Models.Treatment)
    (variables : Models.dict Responses.ResponseVariable)
    : result (Models.dict Responses.ResponseVariable) :=
  match variables with
  | [] => ok []
  | (response_id, response_variable) :: rest =>
      let? labelled := label_with treatment response_variable in
      let? rest' := label_variables treatment rest in
      ok ((response_id, labelled) :: rest')
  end.

(** [ExperimentRunner._label]: the variables of the observer after the
    outer loop over [self.treatments.values()]. *)
Fixpoint _label (treatments : list Models.Treatment)
    (variables : Models.dict Responses.ResponseVariable)
    : result (Models.dict Responses.ResponseVariable) :=
  match treatments with
  | [] => ok variables
  | treatment :: rest =>
      let? variables' := label_variables treatment variables in
      _label rest variables'
  end.

(** A variable that was observed, with numeric timestamps, in a run
    where no treatment is named like its timestamp column. *)
Definition observed (treatments : list Models.Treatment)
    (kv : string * Responses.ResponseVariable) : Prop :=
  exists df ts,
    Responses.data (snd kv) = Some df /\
    get_column df (Responses.timestamp_column (snd kv)) = ok ts /\
    Forall Responses.numeric ts /\
    forall t, In t treatments -> Models.name t <> Responses.timestamp_column (snd kv).

(** The column that the labelling with [t] is to leave in a variable
    whose timestamps are [ts]. *)
Definition expected_column (v : Responses.ResponseVariable) (t : Models.Treatment)
    (ts : list cell) : list cell :=
  match Models.start t, Models.end_ t with
  | Some t_start, Some t_end =>
      Responses.label_cells (Responses.native_unit v t_start)
        (Responses.native_unit v t_end) (Models.name t) ts
  | _, _ => []
  end.

(** [kv'] is [kv] labelled with [treatments]: every treatment has its
    column, and every other column is as it was. *)
Definition labelled (treatments : list Models.Treatment)
    (kv kv' : string * Responses.ResponseVariable) : Prop :=
  fst kv' = fst kv /\
  Responses.class_ (snd kv') = Responses.class_ (snd kv) /\
  exists df df' ts,
    Responses.data (snd kv) = Some df /\
    Responses.data (snd kv') = Some df' /\
    get_column df (Responses.timestamp_column (snd kv)) = ok ts /\
    (forall t, In t treatments ->
               get_column df' (Models.name t) = ok (expected_column (snd kv) t ts)) /\
    (forall c, ~ In c (map Models.name treatments) -> get_column df' c = get_column df c).

Definition timed (t : Models.Treatment) : Prop :=
  Models.start t <> None /\ Models.end_ t <> None.

Lemma label_with_one (t : Models.Treatment) (kv : string * Responses.ResponseVariable) :
  timed t -> observed [t] kv ->
  exists v', label_with t (snd kv) = ok v' /\ labelled [t] kv (fst kv, v').
Proof.
  intros [Hs He] (df & ts & Hdata & Hts & Hnum & Hne).
  unfold label_with, labelled.
  destruct (Models.start t) as [t_start |] eqn:Es; [| congruence].
  destruct (Models.end_ t) as [t_end |] eqn:Ee; [| congruence].
  rewrite (Responses.label_writes_label_cells _ _ _ _ _ _ _ Hdata Hts Hnum).
  eexists. split; [reflexivity |]. cbn [fst snd Responses.class_ Responses.data].
  split; [reflexivity | split; [reflexivity |]]. exists df. eexists. exists ts.
  split; [exact Hdata | split; [reflexivity | split; [exact Hts | split]]].
  - intros t' [<- | []]. unfold expected_column. rewrite Es, Ee.
    apply Responses.get_set_column_same.
  - intros c Hc. apply Responses.get_set_column_other. cbn in Hc. tauto.
Qed.

Lemma label_variables_one (t : Models.Treatment)
    (variables : Models.dict Responses.ResponseVariable) :
  timed t -> Forall (observed [t]) variables ->
  exists variables', label_variables t variables = ok variables' /\
                     Forall2 (labelled [t]) variables variables'.
Proof.
  intros Ht. induction 1 as [| [k v] variables Hv _ IH]; cbn [label_variables].
  - exists []. split; [reflexivity | constructor].
  - destruct (label_with_one t (k, v) Ht Hv) as (v' & Hl & Hv').
    destruct IH as (rest' & Hrest & Hall). cbn [snd] in Hl.
    rewrite Hl, Hrest. cbn [rbind ok]. eexists. split; [reflexivity |].
    constructor; assumption.
Qed.

(** Labelling with one treatment keeps a variable observed for the
    treatments still to come. *)
Lemma labelled_observed (t : Models.Treatment) (rest : list Models.Treatment)
    (kv kv' : string * Responses.ResponseVariable) :
  observed (t :: rest) kv -> labelled [t] kv kv' -> observed rest kv'.
Proof.
  intros (df & ts & Hdata & Hts & Hnum & Hne) (_ & Hclass & df0 & df' & ts0 & H0 & H' & _ & _ & Hother).
  rewrite Hdata in H0. injection H0 as <-.
  assert (Hcol : Responses.timestamp_column (snd kv') = Responses.timestamp_column (snd kv))
    by (unfold Responses.timestamp_column; now rewrite Hclass).
  exists df', ts. rewrite Hcol. split; [exact H' | split; [| split; [exact Hnum |]]].
  - rewrite Hother; [exact Hts |]. cbn. intros [H | []].
    apply (Hne t); [now left | exact H].
  - intros t' Hin. apply Hne. now right.
Qed.

Lemma labelled_then (t : Models.Treatment) (rest : list Models.Treatment)
    (kv kv1 kv' : string * Responses.ResponseVariable) :
  ~ In (Models.name t) (map Models.name rest) ->
  observed (t :: rest) kv ->
  labelled [t] kv kv1 -> labelled rest kv1 kv' -> labelled (t :: rest) kv kv'.
Proof.
  intros Hfresh (df & ts & Hdata & Hts & Hnum & Hne)
    (Hk1 & Hc1 & d0 & d1 & ts0 & Hd0 & Hd1 & Hts0 & Hcol1 & Hother1)
    (Hk2 & Hc2 & e1 & e2 & ts1 & He1 & He2 & Hts1 & Hcol2 & Hother2).
  rewrite Hdata in Hd0. injection Hd0 as <-.
  rewrite Hd1 in He1. injection He1 as <-.
  rewrite Hts in Hts0. injection Hts0 as <-.
  assert (Hcol : Responses.timestamp_column (snd kv1) = Responses.timestamp_column (snd kv))
    by (unfold Responses.timestamp_column; now rewrite Hc1).
  assert (Hsame : ts1 = ts).
  { rewrite Hcol, Hother1 in Hts1.
    - rewrite Hts in Hts1. now injection Hts1.
    - cbn. intros [H | []]. apply (Hne t); [now left | exact H]. }
  subst ts1.
  assert (Hexp : forall t', expected_column (snd kv1) t' ts = expected_column (snd kv) t' ts)
    by (intros t'; unfold expected_column, Responses.native_unit; now rewrite Hc1).
  split; [congruence | split; [congruence |]]. exists df, e2, ts.
  split; [exact Hdata | split; [exact He2 | split; [exact Hts | split]]].
  - intros t' [<- | Hin].
    + rewrite (Hother2 _ Hfresh). apply Hcol1. now left.
    + rewrite <- Hexp. now apply Hcol2.
  - intros c Hc. cbn in Hc. rewrite Hother2 by tauto. apply Hother1. cbn. tauto.
Qed.

(** The labelling of a run: when every treatment has its two
    timestamps, the names of the treatments are distinct, and every
    variable was observed, [_label] returns, and leaves in every
    variable one column per treatment, filled from the timestamps the
    variable was observed with, next to the columns it had. *)
Lemma label_run (treatments : list Models.Treatment) :
  forall variables,
    Forall timed treatments ->
    List.NoDup (map Models.name treatments) ->
    Forall (observed treatments) variables ->
    exists variables', _label treatments variables = ok variables' /\
                       Forall2 (labelled treatments) variables variables'.
Proof.
  induction treatments as [| t rest IH]; intros variables Htimed Hnames Hobs.
  - exists variables. split; [reflexivity |].
    induction Hobs as [| kv variables (df & ts & Hd & Hts & _) _ IHv]; constructor;
      [| exact IHv].
    split; [reflexivity | split; [reflexivity |]]. exists df, df, ts.
    repeat split; try assumption. intros t [].
  - inversion Htimed as [| ? ? Ht Hrest]; subst.
    inversion Hnames as [| ? ? Hfresh Hnames']; subst.
    assert (Hobs1 : Forall (observed [t]) variables).
    { eapply List.Forall_impl; [| exact Hobs].
      intros kv (df & ts & Hd & Hts & Hnum & Hne). exists df, ts.
      repeat split; try assumption. intros t' [<- | []]. apply Hne. now left. }
    destruct (label_variables_one t variables Ht Hobs1) as (vars1 & Hl1 & Hall1).
    assert (Hobs' : Forall (observed rest) vars1).
    { clear -Hobs Hall1. induction Hall1 as [| kv kv1 l l1 H1 _ IHl]; constructor.
      - inversion Hobs; subst. eapply labelled_observed; eassumption.
      - inversion Hobs; subst. now apply IHl. }
    destruct (IH vars1 Hrest Hnames' Hobs') as (vars' & Hl' & Hall').
    exists vars'. cbn [_label]. rewrite Hl1. cbn [rbind ok]. split; [exact Hl' |].
    clear -Hobs Hall1 Hall' Hfresh. revert vars' Hall'.
    induction Hall1 as [| kv kv1 l l1 H1 _ IHl]; intros vars' Hall'.
    + inversion Hall'; subst. constructor.
    + inversion Hall' as [| ? kv' ? l' H2 Hrest']; subst.
      inversion Hobs; subst. constructor.
      * eapply labelled_then; eassumption.
      * now apply IHl.
Qed.

End Labelling.

(** ** report.py *)

Module Report.

Import Frame.
Local Open Scope string_scope.

(** [dataframe[label_column] != label] and [dataframe[label_column] == label],
    element by element. *)
Definition column_ne_str (col : list cell) (s : string) : list bool :=
  map (fun c => negb (cell_eq_str c s)) col.

Definition column_eq_str (col : list cell) (s : string) : list bool :=
  map (fun c => cell_eq_str c s) col.

(** [except (KeyError, AttributeError) as e: raise OxnException(...)]. *)
Definition wrong_format {A} (r : result A) : result A :=
  match r with
  | inl (KeyError k) =>
      raise (OxnException "Dataframe passed to welch ttest has wrong format" k)
  | inl (AttributeError a) =>
      raise (OxnException "Dataframe passed to welch ttest has wrong format" a)
  | other => other
  end.

(** The [try] block of [compute_welch_ttest]: the two samples
    [control] and [experiment], in this order. *)
Definition welch_samples (dataframe : option DataFrame)
    (label label_column value_column : string) : result (list cell * list cell) :=
  match dataframe with
  | None => raise (TypeError "'NoneType' object is not subscriptable")
  | Some df =>
      wrong_format
        (let? labels := get_column df label_column in
         let? control := get_column (loc df (column_ne_str labels label)) value_column in
         let? labels' := get_column df label_column in
         let? experiment := get_column (loc df (column_eq_str labels' label)) value_column in
         ok (control, experiment))
  end.

(** The attributes of the runner that the report reads. *)
Record ExperimentRunner : Type := mkRunner {
  config_filename : string;
  short_id : string
}.

(** One entry of [self.interactions].  The four timestamps are stored
    humanized; they are kept here as the seconds they are computed from. *)
Record Interaction : Type := mkInteraction {
  treatment_name : string;
  treatment_start : option float;
  treatment_end : option float;
  treatment_type : string;
  response_name : string;
  response_start : float;
  response_end : float;
  response_type : string;
  p_value : string;
  test_statistic : string;
  test_performed : string;
  store_key : string
}.

Section Welch.

(** scipy's [ttest_ind(a, b, equal_var, nan_policy)], giving the
    statistic and the p-value, and Python's [str] on floats: neither is
    part of the sources. *)
Variable ttest_ind : list cell -> list cell -> bool -> string -> float * float.
Variable str : float -> string.

(** [Reporter.compute_welch_ttest]. *)
Definition compute_welch_ttest (dataframe : option DataFrame)
    (label label_column value_column : string) : result (string * string * string) :=
  let? samples := welch_samples dataframe label label_column value_column in
  let (control, experiment) := samples : list cell * list cell in
  let ttest_result := ttest_ind control experiment false "omit" in
  ok (str (fst ttest_result), str (snd ttest_result), "welch t-test").

(** The arguments [gather_interaction] passes on for one pair. *)
Definition value_column (response : Responses.ResponseVariable) : string :=
  match Responses.class_ response with
  | Responses.TraceResponseVariable _ => "duration"
  | Responses.MetricResponseVariable metric_name => metric_name
  end.

Definition display_response_name (response : Responses.ResponseVariable) : string :=
  match Responses.class_ response with
  | Responses.MetricResponseVariable _ => Responses.name response
  | Responses.TraceResponseVariable _ => Responses.name response ++ ".duration"
  end.

Definition response_type_name (response : Responses.ResponseVariable) : string :=
  match Responses.class_ response with
  | Responses.MetricResponseVariable _ => "MetricResponseVariable"
  | Responses.TraceResponseVariable _ => "TraceResponseVariable"
  end.

(** The samples that [gather_interaction] has the test compare. *)
Definition gathered_samples (treatment : Models.Treatment)
    (response : Responses.ResponseVariable) : result (list cell * list cell) :=
  welch_samples (Responses.data response) "NoTreatment" (Models.name treatment)
    (value_column response).

(** [Reporter.gather_interaction]: the entry appended to
    [self.interactions]. *)
Definition gather_interaction (experiment : ExperimentRunner)
    (treatment : Models.Treatment) (response : Responses.ResponseVariable)
    : result Interaction :=
  let store_key :=
    Store.construct_key (config_filename experiment) (short_id experiment)
      (Responses.name response) in
  let? test :=
    compute_welch_ttest (Responses.data response) "NoTreatment"
      (Models.name treatment) (value_column response) in
  let '(statistic, pvalue, test_name) := test in
  ok (mkInteraction (Models.name treatment) (Models.start treatment)
        (Models.end_ treatment) (Models.treatment_type treatment)
        (display_response_name response) (Responses.start response)
        (Responses.end_ response) (response_type_name response)
        pvalue statistic test_name store_key).

End Welch.

(** *** Which rows go into which sample *)

Lemma get_column_loc (df : DataFrame) (mask : list bool) (c : string) (col : list cell) :
  get_column df c = ok col -> get_column (loc df mask) c = ok (select mask col).
Proof.
  induction df as [| [n cells] df IH]; simpl; [discriminate |].
  destruct (String.eqb n c); [now intros [= ->] | exact IH].
Qed.

(** Whatever the frame, the sample passed first, [control], is made of
    the rows whose label differs from [NoTreatment], and the sample
    passed second, [experiment], of the rows labelled [NoTreatment]. *)
Lemma gathered_samples_rows (treatment : Models.Treatment)
    (response : Responses.ResponseVariable) (df : DataFrame) (labels values : list cell) :
  Responses.data response = Some df ->
  get_column df (Models.name treatment) = ok labels ->
  get_column df (value_column response) = ok values ->
  gathered_samples treatment response =
  ok (select (column_ne_str labels "NoTreatment") values,
      select (column_eq_str labels "NoTreatment") values).
Proof.
  intros Hdata Hlabels Hvalues. unfold gathered_samples, welch_samples.
  rewrite Hdata, Hlabels. cbn [rbind ok].
  rewrite (get_column_loc _ _ _ _ Hvalues). cbn [rbind ok].
  rewrite (get_column_loc _ _ _ _ Hvalues). reflexivity.
Qed.

(** A latency metric observed at seconds 5 and 15, and a treatment that
    ran from second 10 to second 20. *)
Definition observed_latency : Responses.ResponseVariable :=
  Responses.mkResponse (Responses.MetricResponseVariable "latency") "latency" 0 100
    (Some [("timestamp", [CInt 5; CInt 15]); ("latency", [CFloat 1; CFloat 2])]).

Definition wait_treatment : Models.Treatment :=
  Models.mkTreatment Models.EmptyTreatment "wait"
    [("duration", Models.YStr "10s"); ("duration_seconds", Models.YFloat 10)]
    (Some 10%float) (Some 20%float) [].

(** C1: on the labelled frame the row measured during the treatment
    (value 2) is the one handed to the test as [control], and the row
    labelled [NoTreatment] (value 1) the one handed over as
    [experiment]. *)
Theorem gather_interaction_control_is_treated_rows :
  exists labelled,
    Responses.label observed_latency 10 20 "wait" "wait" = ok labelled /\
    Responses.data labelled =
      Some [("timestamp", [CInt 5; CInt 15]); ("latency", [CFloat 1; CFloat 2]);
            ("wait", [CStr "NoTreatment"; CStr "wait"])] /\
    gathered_samples wait_treatment labelled = ok ([CFloat 2], [CFloat 1]) /\
    forall ttest_ind str experiment,
      (let? i := gather_interaction ttest_ind str experiment wait_treatment labelled in
       ok (test_statistic i, p_value i)) =
      ok (str (fst (ttest_ind [CFloat 2] [CFloat 1] false "omit")),
          str (snd (ttest_ind [CFloat 2] [CFloat 1] false "omit"))).
Proof.
  eexists. split; [| split; [| split]].
  - vm_compute. reflexivity.
  - reflexivity.
  - vm_compute. reflexivity.
  - intros ttest_ind str experiment.
    vm_compute. reflexivity.
Qed.

End Report.

(** ** runner.py: building the treatments *)

Module Runner.

Import Models.
Local Open Scope string_scope.

(** [x[i], x[j] = x[j], x[i]] on a list. *)
Definition swap {A} (x : list A) (i j : nat) : list A :=
  match x !! i, x !! j with
  | Some xi, Some xj => <[j := xi]> (<[i := xj]> x)
  | _, _ => x
  end.

(** [random.shuffle(x)], which the standard library defines as
    [for i in reversed(range(1, len(x))): j = randbelow(i + 1);
    x[i], x[j] = x[j], x[i]].  The generator is the list [draws] of the
    numbers it yields next, each reduced below the bound asked for.
    [shuffle_from i] runs the loop from index [i] down to 1. *)
Fixpoint shuffle_from {A} (i : nat) (draws : list nat) (x : list A) : list A :=
  match i with
  | O => x
  | S i' =>
      let j := (hd 0%nat draws mod (i + 1))%nat in
      shuffle_from i' (tl draws) (swap x i j)
  end.

Definition shuffle {A} (draws : list nat) (x : list A) : list A :=
  shuffle_from (length x - 1) draws x.

(** The attributes of [ExperimentRunner] that building reads. *)
Record ExperimentRunner : Type := mkRunner {
  config : Spec;
  random_treatment_order : bool;
  treatments : dict Treatment
}.

Section Build.

(** [treatment_keys] after [_extend_treatments], and the numbers the
    random generator yields. *)
Variable treatment_keys : dict TreatmentClass.
Variable draws : list nat.

(** [_build_treatment]: the params dict as it is left, and the
    instance or the exception raised.  Calling the missing class
    [None], like any [TypeError] in the constructor, is reported as a
    missing treatment key. *)
Definition _build_treatment (action : string) (params : dict yaml) (name : string)
    : dict yaml * result Treatment :=
  let missing :=
    OxnException ("Error while building treatment " ++ name)
      ("Treatment key " ++ action ++ " does not exist in the treatment library") in
  match dict_get treatment_keys action with
  | None => (params, raise missing)
  | Some treatment_class =>
      let (params', instance) := Treatment_init treatment_class params name in
      match instance with
      | inl (TypeError _) => (params', raise missing)
      | _ => (params', instance)
      end
  end.

(** The [for] loop of [_build_treatments] over the section: the entries
    as the loop leaves them, and [self.treatments] or the exception. *)
Fixpoint build_loop (treatment_section : list TreatmentEntry) (treatments : dict Treatment)
    : list TreatmentEntry * result (dict Treatment) :=
  match treatment_section with
  | [] => ([], ok treatments)
  | treatment :: rest =>
      let key := entry_name treatment in
      let (params', instance) :=
        _build_treatment (action treatment) (params treatment) key in
      let treatment' := mkEntry key (action treatment) params' in
      match instance with
      | inl e => (treatment' :: rest, raise e)
      | inr t =>
          let (rest', r) := build_loop rest (dict_set treatments key t) in
          (treatment' :: rest', r)
      end
  end.

(** [_build_treatments].  [treatment_section] is the list object of the
    specification itself, so the shuffle and the constructors work on
    the specification: the result is the specification as it is
    afterwards and the runner, or the exception raised. *)
Definition _build_treatments (self : ExperimentRunner) : Spec * result ExperimentRunner :=
  match Models.treatments (config self) with
  | None => (config self, raise (KeyError "treatments"))
  | Some treatment_section =>
      let shuffled :=
        if random_treatment_order self then shuffle draws treatment_section
        else treatment_section in
      let (section', r) := build_loop shuffled (treatments self) in
      let config' :=
        mkSpec (responses (config self)) (Some section') (sue (config self))
          (loadgen (config self)) in
      (config',
       let? treatments' := r in
       ok (mkRunner config' (random_treatment_order self) treatments'))
  end.

(** What building leaves of an entry: its params as the constructor of
    its class leaves them. *)
Definition built_entry (treatment : TreatmentEntry) : TreatmentEntry :=
  mkEntry (entry_name treatment) (action treatment)
    (fst (_build_treatment (action treatment) (params treatment) (entry_name treatment))).

End Build.

(** A specification with two [empty] treatments. *)
Definition two_waits : Spec :=
  mkSpec (YList []) 
    (Some [mkEntry "first" "empty" [("duration", YStr "10s")];
           mkEntry "second" "empty" [("duration", YStr "1m")]])
    (YDict []) (YDict []).

(** *** The shuffle permutes *)

Lemma insert_head_Permutation {A} (l : list A) (j : nat) (a b : A) :
  l !! j = Some b -> Permutation (b :: <[j := a]> l) (a :: l).
Proof.
  revert j. induction l as [| c l IH]; intros [| j] H; try discriminate.
  - injection H as ->. apply perm_swap.
  - cbn in H |- *. apply perm_trans with (c :: b :: <[j := a]> l); [apply perm_swap |].
    apply perm_trans with (c :: a :: l); [| apply perm_swap].
    apply perm_skip. now apply IH.
Qed.

Lemma swap_Permutation {A} (x : list A) : forall i j, Permutation (swap x i j) x.
Proof.
  unfold swap. induction x as [| a x IH]; intros i j; [now destruct i |].
  destruct i as [| i], j as [| j]; cbn.
  - reflexivity.
  - destruct (x !! j) as [xj |] eqn:Hj; [| reflexivity].
    now apply insert_head_Permutation.
  - destruct (x !! i) as [xi |] eqn:Hi; [| reflexivity].
    now apply insert_head_Permutation.
  - specialize (IH i j).
    destruct (x !! i) as [xi |], (x !! j) as [xj |]; try reflexivity.
    now apply perm_skip.
Qed.

Lemma shuffle_from_Permutation {A} (i : nat) :
  forall (draws : list nat) (x : list A), Permutation (shuffle_from i draws x) x.
Proof.
  induction i as [| i IH]; intros draws x; [reflexivity |].
  cbn [shuffle_from]. eapply perm_trans; [apply IH | apply swap_Permutation].
Qed.

Lemma shuffle_Permutation {A} (draws : list nat) (x : list A) :
  Permutation (shuffle draws x) x.
Proof. apply shuffle_from_Permutation. Qed.

(** *** What building does to the specification *)

(** An entry [e'] of the section after building, against the entry [e]
    it was built from: same name, same action, and the params that
    [_transform_params] of its class left. *)
Definition transformed (treatment_keys : dict TreatmentClass) (e e' : TreatmentEntry) : Prop :=
  entry_name e' = entry_name e /\
  action e' = action e /\
  exists cls, dict_get treatment_keys (action e) = Some cls /\
              params e' = fst (_transform_params cls (params e)).

Lemma Treatment_init_ok (cls : TreatmentClass) (config config' : dict yaml)
    (name : string) (t : Treatment) :
  Treatment_init cls config name = (config', ok t) ->
  config' = fst (_transform_params cls config) /\ Models.config t = config'.
Proof.
  unfold Treatment_init.
  destruct (_validate_params cls config) as [[e | [|]] messages]; try discriminate.
  destruct (_transform_params cls config) as [c failure]. destruct failure; [discriminate |].
  intros [= <- <-]. split; reflexivity.
Qed.

Lemma _build_treatment_ok (treatment_keys : dict TreatmentClass) (action : string)
    (params params' : dict yaml) (name : string) (t : Treatment) :
  _build_treatment treatment_keys action params name = (params', ok t) ->
  exists cls, dict_get treatment_keys action = Some cls /\
              params' = fst (_transform_params cls params) /\
              Models.config t = params'.
Proof.
  unfold _build_treatment.
  destruct (dict_get treatment_keys action) as [cls |]; [| discriminate].
  destruct (Treatment_init cls params name) as [p r] eqn:Hinit.
  destruct r as [e | t']; [destruct e; discriminate |].
  intros [= <- <-]. exists cls. split; [reflexivity |]. now apply (Treatment_init_ok _ _ _ name).
Qed.

Lemma build_loop_ok (treatment_keys : dict TreatmentClass) (section : list TreatmentEntry) :
  forall treatments section' treatments',
    build_loop treatment_keys section treatments = (section', ok treatments') ->
    Forall2 (transformed treatment_keys) section section'.
Proof.
  induction section as [| e section IH]; intros treatments section' treatments'; cbn [build_loop].
  - intros [= <- _]. constructor.
  - destruct (_build_treatment _ _ _ _) as [params' instance] eqn:Hb.
    destruct instance as [err | t]; [discriminate |].
    destruct (build_loop _ section _) as [rest' r] eqn:Hrest.
    intros [= <- ->]. constructor; [| now apply (IH _ _ _ Hrest)].
    destruct (_build_treatment_ok _ _ _ _ _ _ Hb) as (cls & Hcls & Hp & _).
    repeat split; cbn; eauto.
Qed.

Lemma transformed_names (treatment_keys : dict TreatmentClass)
    (section section' : list TreatmentEntry) :
  Forall2 (transformed treatment_keys) section section' ->
  map entry_name section' = map entry_name section /\
  map action section' = map action section.
Proof.
  induction 1 as [| e e' section section' (Hn & Ha & _) _ [IHn IHa]]; cbn.
  - split; reflexivity.
  - now rewrite Hn, Ha, IHn, IHa.
Qed.

(** C5, as stated, fails: building the two treatments without
    randomization leaves the params of the specification with an added
    [duration_seconds], and building them with a randomized order, the
    generator yielding 0, leaves the two entries exchanged as well. *)
Lemma build_treatments_rewrites_spec :
  Models.treatments
    (fst (_build_treatments [("empty", EmptyTreatment)] [] (mkRunner two_waits false [])))
  = Some [mkEntry "first" "empty" [("duration", YStr "10s"); ("duration_seconds", YFloat 10)];
          mkEntry "second" "empty" [("duration", YStr "1m"); ("duration_seconds", YFloat 60)]]
  /\
  option_map (map entry_name)
    (Models.treatments
       (fst (_build_treatments [("empty", EmptyTreatment)] [0%nat] (mkRunner two_waits true []))))
  = Some ["second"; "first"]
  /\
  fst (_build_treatments [("empty", EmptyTreatment)] [] (mkRunner two_waits false []))
  <> two_waits.
Proof.
  split; [| split].
  - vm_compute. reflexivity.
  - vm_compute. reflexivity.
  - intros H.
    apply (f_equal (fun s => option_map (map (fun e => length (params e)))
                               (Models.treatments s))) in H.
    vm_compute in H. discriminate H.
Qed.

Lemma build_loop_names (treatment_keys : dict TreatmentClass)
    (section : list TreatmentEntry) :
  forall treatments,
    map entry_name (fst (build_loop treatment_keys section treatments)) =
      map entry_name section /\
    map action (fst (build_loop treatment_keys section treatments)) = map action section.
Proof.
  induction section as [| e section IH]; intros treatments; cbn [build_loop].
  - split; reflexivity.
  - destruct (_build_treatment _ _ _ _) as [params' instance].
    destruct instance as [err | t]; [split; reflexivity |].
    specialize (IH (dict_set treatments (entry_name e) t)).
    destruct (build_loop _ section _) as [rest' r]. cbn in *.
    destruct IH as [-> ->]. split; reflexivity.
Qed.

(** C5, amended: whether building succeeds or raises, the
    specification afterwards differs from the loaded one in its
    treatments section only; that section holds as many entries, with
    the names and actions of the loaded ones, in the same order
    without randomization and in the order the shuffle produced, a
    permutation, with it; and when building succeeds, every entry has
    the params its [_transform_params] left and the runner holds this
    rewritten specification. *)
Theorem build_treatments_spec_afterwards (treatment_keys : dict TreatmentClass)
    (draws : list nat) (self : ExperimentRunner) (spec' : Spec)
    (r : result ExperimentRunner) (section : list TreatmentEntry) :
  _build_treatments treatment_keys draws self = (spec', r) ->
  Models.treatments (config self) = Some section ->
  let shuffled :=
    if random_treatment_order self then shuffle draws section else section in
  exists section',
    Models.treatments spec' = Some section' /\
    responses spec' = responses (config self) /\
    sue spec' = sue (config self) /\
    loadgen spec' = loadgen (config self) /\
    map entry_name section' = map entry_name shuffled /\
    map action section' = map action shuffled /\
    Permutation (map entry_name section') (map entry_name section) /\
    Permutation (map action section') (map action section) /\
    (random_treatment_order self = false ->
     map entry_name section' = map entry_name section /\
     map action section' = map action section) /\
    (forall runner',
       r = ok runner' ->
       config runner' = spec' /\ Forall2 (transformed treatment_keys) shuffled section').
Proof.
  intros Hbuild Hsection shuffled. unfold _build_treatments in Hbuild.
  rewrite Hsection in Hbuild. fold shuffled in Hbuild.
  pose proof (build_loop_names treatment_keys shuffled (treatments self)) as [Hn Ha].
  destruct (build_loop _ shuffled _) as [section' r0] eqn:Hloop. cbn [fst] in Hn, Ha.
  injection Hbuild as <- <-. exists section'.
  do 4 (split; [reflexivity |]).
  split; [exact Hn |]. split; [exact Ha |]. split; [| split; [| split]].
  - rewrite Hn. unfold shuffled. destruct (random_treatment_order self); [| reflexivity].
    apply Permutation_map, shuffle_Permutation.
  - rewrite Ha. unfold shuffled. destruct (random_treatment_order self); [| reflexivity].
    apply Permutation_map, shuffle_Permutation.
  - intros Hrandom. unfold shuffled in Hn, Ha. rewrite Hrandom in Hn, Ha. now split.
  - intros runner' Hr. destruct r0 as [e | treatments']; [discriminate Hr |].
    cbn [rbind ok] in Hr. injection Hr as <-. split; [reflexivity |].
    exact (build_loop_ok _ _ _ _ _ Hloop).
Qed.

Lemma build_treatments_spec_afterwards_witness :
  exists section',
    Models.treatments
      (fst (_build_treatments [("empty", EmptyTreatment)] [0%nat] (mkRunner two_waits true [])))
    = Some section' /\
    map entry_name section' = ["second"; "first"].
Proof.
  destruct (_build_treatments [("empty", EmptyTreatment)] [0%nat] (mkRunner two_waits true []))
    as [spec' r] eqn:Hbuild.
  destruct (build_treatments_spec_afterwards _ _ _ _ _ _ Hbuild eq_refl)
    as (section' & H1 & _ & _ & _ & Hnames & _).
  exists section'. split; [exact H1 | exact Hnames].
Defined.

(** Where the claim does hold: without randomization, and when no
    [_transform_params] writes to its config, a successful build leaves
    the specification as it was loaded. *)
Lemma build_treatments_leaves_spec (treatment_keys : dict TreatmentClass)
    (draws : list nat) (self : ExperimentRunner) (spec' : Spec) (runner' : ExperimentRunner) :
  random_treatment_order self = false ->
  (forall action cls params,
     dict_get treatment_keys action = Some cls ->
     fst (_transform_params cls params) = params) ->
  _build_treatments treatment_keys draws self = (spec', ok runner') ->
  spec' = config self.
Proof.
  intros Hrandom Hpure. unfold _build_treatments.
  destruct (Models.treatments (config self)) as [section |] eqn:Hsection; [| discriminate].
  rewrite Hrandom.
  destruct (build_loop _ section _) as [section' r0] eqn:Hloop.
  destruct r0 as [e | treatments']; [discriminate |]. cbn [rbind ok]. intros [= <- _].
  pose proof (build_loop_ok _ _ _ _ _ Hloop) as Hall.
  assert (Hsame : section' = section).
  { clear -Hall Hpure. induction Hall as [| e e' l l' (Hn & Ha & cls & Hcls & Hp) _ IH].
    - reflexivity.
    - rewrite (Hpure _ _ _ Hcls) in Hp. destruct e, e'; cbn in *. congruence. }
  rewrite Hsame, <- Hsection. now destruct (config self).
Qed.

End Runner.

(** ** engine.py, with the methods of the runner it sequences *)

Module Engine.

Import Models.
Local Open Scope string_scope.

(** The calls whose order the engine decides. *)
Inductive event : Type :=
| orchestrator_init
| generator_init
| inject (treatment : string)
| clean (treatment : string)
| orchestrate
| ready
| teardown
| preconditions (treatment : string)
| generator_start
| generator_stop
| generator_kill
| accountant_read
| accountant_consolidate
| sleep_left
| sleep_right
| observer_initialize
| observer_observe
| label
| write_dataframe (response : string)
| gather_interaction (treatment response : string)
| assemble_interaction_data
| add_loadgen_data
| add_accountant_data
| dump_report_data.

(** What the surroundings do: the treatment classes known and the
    numbers the random generator yields; the clock, by the number of
    earlier readings; and, by the number of earlier calls, the
    exception a call raises, if any, and what [ready] and
    [preconditions] return; the container names handed to the
    accountant; and the names of the response variables. *)
Record Env : Type := mkEnv {
  treatment_keys : dict TreatmentClass;
  draws : list nat;
  utc_timestamp : nat -> float;
  fails : nat -> event -> option exn;
  ready_returns : nat -> bool;
  preconditions_hold : nat -> string -> bool;
  accountant_names : list string;
  response_names : list string
}.

(** The attributes of the engine and of its runner that a run changes,
    and the numbers of clock readings and of calls so far. *)
Record State : Type := mkState {
  spec : Spec;
  treatments : dict Treatment;
  accountant : bool;
  experiment_start : option float;
  experiment_end : option float;
  loadgen_running : bool;
  sue_running : bool;
  clock : nat;
  calls : nat
}.

(** A step of the engine: the calls it makes, the state it leaves, and
    its value or the exception it raises. *)
Definition M (A : Type) : Type := State -> list event * State * result A.

Definition ret {A} (a : A) : M A := fun s => ([], s, ok a).

Definition throw {A} (e : exn) : M A := fun s => ([], s, raise e).

Definition bind {A B} (m : M A) (k : A -> M B) : M B :=
  fun s =>
    match m s with
    | (t1, s1, inl e) => (t1, s1, inl e)
    | (t1, s1, inr a) =>
        match k a s1 with
        | (t2, s2, r) => ((t1 ++ t2)%list, s2, r)
        end
    end.

Notation "'let*' x ':=' m 'in' k" := (bind m (fun x => k))
  (at level 10, x pattern, m at level 100, k at level 200).
Notation "m >> k" := (bind m (fun _ => k))
  (at level 100, k at level 200, right associativity).

(** A Python [for] loop whose body returns nothing. *)
Fixpoint for_each {X} (body : X -> M unit) (l : list X) : M unit :=
  match l with
  | [] => ret tt
  | x :: l' => body x >> for_each body l'
  end.

Definition when (b : bool) (m : M unit) : M unit := if b then m else ret tt.

Definition get : M State := fun s => ([], s, ok s).

Definition modify (f : State -> State) : M unit := fun s => ([], f s, ok tt).

Definition set_treatments (ts : dict Treatment) (s : State) : State :=
  mkState (spec s) ts (accountant s) (experiment_start s) (experiment_end s)
    (loadgen_running s) (sue_running s) (clock s) (calls s).

Definition set_loadgen_running (b : bool) (s : State) : State :=
  mkState (spec s) (treatments s) (accountant s) (experiment_start s) (experiment_end s)
    b (sue_running s) (clock s) (calls s).

Definition set_sue_running (b : bool) (s : State) : State :=
  mkState (spec s) (treatments s) (accountant s) (experiment_start s) (experiment_end s)
    (loadgen_running s) b (clock s) (calls s).

Definition set_experiment_start (t : float) (s : State) : State :=
  mkState (spec s) (treatments s) (accountant s) (Some t) (experiment_end s)
    (loadgen_running s) (sue_running s) (clock s) (calls s).

Definition set_experiment_end (t : float) (s : State) : State :=
  mkState (spec s) (treatments s) (accountant s) (experiment_start s) (Some t)
    (loadgen_running s) (sue_running s) (clock s) (calls s).

Definition count_call (s : State) : State :=
  mkState (spec s) (treatments s) (accountant s) (experiment_start s) (experiment_end s)
    (loadgen_running s) (sue_running s) (clock s) (S (calls s)).

Definition count_reading (s : State) : State :=
  mkState (spec s) (treatments s) (accountant s) (experiment_start s) (experiment_end s)
    (loadgen_running s) (sue_running s) (S (clock s)) (calls s).

(** [treatment.start = t] and [treatment.end = t]. *)
Definition with_start (t : float) (tr : Treatment) : Treatment :=
  mkTreatment (class_of tr) (name tr) (config tr) (Some t) (end_ tr) (messages tr).

Definition with_end (t : float) (tr : Treatment) : Treatment :=
  mkTreatment (class_of tr) (name tr) (config tr) (start tr) (Some t) (messages tr).

(** An assignment to an attribute of the treatment held under [name]. *)
Definition update_treatment (name : string) (f : Treatment -> Treatment) : M unit :=
  modify (fun s =>
            match dict_get (treatments s) name with
            | Some tr => set_treatments (dict_set (treatments s) name (f tr)) s
            | None => s
            end).

(** [_get_runtime_treatments] and [_get_compile_time_treatments], as the
    keys the treatments are held under. *)
Definition _get_runtime_treatments (s : State) : list string :=
  map fst (List.filter (fun kt => is_runtime (class_of (snd kt))) (treatments s)).

Definition _get_compile_time_treatments (s : State) : list string :=
  map fst (List.filter (fun kt => negb (is_runtime (class_of (snd kt)))) (treatments s)).

Section Run.

Variable env : Env.

(** One call that returns [value]: it is made, and raises what the
    surroundings decide. *)
Definition call_returning {A} (e : event) (value : nat -> A) : M A :=
  fun s =>
    ([e], count_call s,
     match fails env (calls s) e with
     | Some x => raise x
     | None => ok (value (calls s))
     end).

Definition call (e : event) : M unit := call_returning e (fun _ => tt).

(** [utc_timestamp()]. *)
Definition now : M float :=
  fun s => ([], count_reading s, ok (utc_timestamp env (clock s))).

(** [ExperimentRunner.execute_compile_time_treatments]. *)
Definition execute_compile_time_treatments : M unit :=
  let* s := get in
  for_each
    (fun treatment =>
       let* t := now in
       update_treatment treatment (with_start t) >>
       call (inject treatment))
    (_get_compile_time_treatments s).

(** [ExperimentRunner.clean_compile_time_treatments]. *)
Definition clean_compile_time_treatments : M unit :=
  let* s := get in
  for_each
    (fun treatment =>
       let* t := now in
       update_treatment treatment (with_end t) >>
       call (clean treatment))
    (_get_compile_time_treatments s).

(** [ExperimentRunner.execute_runtime_treatments]. *)
Definition execute_runtime_treatments : M unit :=
  let* s := get in
  when (accountant s) (call accountant_read) >>
  call sleep_left >>
  for_each
    (fun treatment =>
       let* t := now in
       update_treatment treatment (with_start t) >>
       call (inject treatment) >>
       call (clean treatment) >>
       let* t' := now in
       update_treatment treatment (with_end t'))
    (_get_runtime_treatments s).

(** [ExperimentRunner.observe_response_variables]. *)
Definition observe_response_variables : M unit :=
  call observer_initialize >>
  call sleep_right >>
  call observer_observe >>
  call label >>
  let* s := get in
  when (accountant s) (call accountant_read >> call accountant_consolidate).

(** [ExperimentRunner(...)]: the treatments are built on the
    specification of the engine itself, so what building leaves of it
    stays, whether the constructor returns or raises. *)
Definition ExperimentRunner_init (randomize accounting : bool) : M unit :=
  fun s =>
    let (spec', r) :=
      Runner._build_treatments (treatment_keys env) (draws env)
        (Runner.mkRunner (spec s) randomize []) in
    match r with
    | inl e =>
        ([], mkState spec' (treatments s) (accountant s) (experiment_start s)
               (experiment_end s) (loadgen_running s) (sue_running s) (clock s) (calls s),
         raise e)
    | inr runner =>
        ([], mkState spec' (Runner.treatments runner)
               (accounting && Orchestration.truthy (accountant_names env))
               None None (loadgen_running s) (sue_running s) (clock s) (calls s),
         ok tt)
    end.

(** The body of the loop of [Engine.run]: one run of the experiment. *)
Definition run_iteration (randomize accounting report : bool) : M unit :=
  call orchestrator_init >>
  call generator_init >>
  ExperimentRunner_init randomize accounting >>
  execute_compile_time_treatments >>
  call orchestrate >>
  let* is_ready := call_returning ready (ready_returns env) in
  if negb is_ready then
    clean_compile_time_treatments >>
    call teardown >>
    throw (OrchestrationException "Error while building the sue"
             "Could not build the sue within the timeout")
  else
    modify (set_sue_running true) >>
    let* s := get in
    for_each
      (fun treatment =>
         let* holds :=
           call_returning (preconditions treatment)
             (fun n => preconditions_hold env n treatment) in
         when (negb holds)
           (throw (OxnException
                     ("Error while checking preconditions for treatment " ++ treatment)
                     "")))
      (map fst (treatments s)) >>
    call generator_start >>
    modify (set_loadgen_running true) >>
    let* experiment_start := now in
    modify (set_experiment_start experiment_start) >>
    execute_runtime_treatments >>
    clean_compile_time_treatments >>
    let* experiment_end := now in
    modify (set_experiment_end experiment_end) >>
    observe_response_variables >>
    call generator_stop >>
    modify (set_loadgen_running false) >>
    let* s := get in
    for_each
      (fun response =>
         call (write_dataframe response) >>
         when report
           (for_each (fun treatment => call (gather_interaction treatment response))
              (map fst (treatments s)) >>
            call assemble_interaction_data >>
            call add_loadgen_data >>
            when accounting (call add_accountant_data)))
      (response_names env) >>
    call teardown >>
    modify (set_sue_running false).

(** [Engine.run]. *)
Definition run (runs : nat) (randomize accounting report : bool) : M unit :=
  for_each (fun _ => run_iteration randomize accounting report) (seq 0 runs) >>
  when report (call dump_report_data).

(** The [try] statement of [main] around [engine.run]: the exceptions
    of oxn and the keyboard interrupt are logged, any other escapes;
    the [finally] clause kills the load generation and tears the system
    down when they are still marked as running. *)
Definition main_run (runs : nat) (randomize accounting report : bool) : M unit :=
  fun s =>
    let '(t1, s1, r) := run runs randomize accounting report s in
    let logged :=
      match r with
      | inl (OxnException _ _) | inl (OrchestrationException _ _)
      | inl KeyboardInterrupt => ok tt
      | other => other
      end in
    let finally :=
      when (loadgen_running s1) (call generator_kill) >>
      when (sue_running s1) (call teardown) in
    let '(t2, s2, r2) := finally s1 in
    ((t1 ++ t2)%list, s2,
     match r2 with
     | inl e => raise e
     | inr _ => logged
     end).

End Run.

(** The engine before its first run. *)
Definition Engine_init (spec : Spec) : State :=
  mkState spec [] false None None false false 0 0.

(** *** Which calls a step can make *)

Definition is_teardown (e : event) : bool :=
  match e with
  | teardown => true
  | _ => false
  end.

Definition is_clean (e : event) : bool :=
  match e with
  | clean _ => true
  | _ => false
  end.

(** Every call that [m] makes satisfies [S], however it ends. *)
Definition emits (S : event -> bool) {A} (m : M A) : Prop :=
  forall s, forallb S (fst (fst (m s))) = true.

(** The calls of [m] fall into two phases: first calls other than
    [teardown], then calls other than [clean]. *)
Definition two_phase (t : list event) : Prop :=
  exists a b, t = (a ++ b)%list /\
              forallb (fun e => negb (is_teardown e)) a = true /\
              forallb (fun e => negb (is_clean e)) b = true.

Definition phased {A} (m : M A) : Prop := forall s, two_phase (fst (fst (m s))).

Section Emits.

Variable env : Env.
Variable S : event -> bool.

Lemma emits_ret {A} (a : A) : emits S (ret a).
Proof. intros s. reflexivity. Qed.

Lemma emits_throw {A} (e : exn) : emits S (@throw A e).
Proof. intros s. reflexivity. Qed.

Lemma emits_get : emits S get.
Proof. intros s. reflexivity. Qed.

Lemma emits_modify (f : State -> State) : emits S (modify f).
Proof. intros s. reflexivity. Qed.

Lemma emits_now : emits S (now env).
Proof. intros s. reflexivity. Qed.

Lemma emits_call_returning {A} (e : event) (value : nat -> A) :
  S e = true -> emits S (call_returning env e value).
Proof. intros He s. cbn. now rewrite He. Qed.

Lemma emits_call (e : event) : S e = true -> emits S (call env e).
Proof. apply emits_call_returning. Qed.

Lemma emits_bind {A B} (m : M A) (k : A -> M B) :
  emits S m -> (forall a, emits S (k a)) -> emits S (bind m k).
Proof.
  intros Hm Hk s. unfold bind. specialize (Hm s).
  destruct (m s) as [[t1 s1] [e | a]]; [exact Hm |].
  specialize (Hk a s1). destruct (k a s1) as [[t2 s2] r]. cbn in *.
  now rewrite forallb_app, Hm, Hk.
Qed.

Lemma emits_for_each {X} (body : X -> M unit) (l : list X) :
  (forall x, emits S (body x)) -> emits S (for_each body l).
Proof.
  intros Hbody. induction l as [| x l IH]; cbn [for_each].
  - apply emits_ret.
  - apply emits_bind; [apply Hbody | intros _; exact IH].
Qed.

Lemma emits_when (b : bool) (m : M unit) : emits S m -> emits S (when b m).
Proof. intros Hm. destruct b; [exact Hm | apply emits_ret]. Qed.

Lemma emits_update_treatment (name : string) (f : Treatment -> Treatment) :
  emits S (update_treatment name f).
Proof. apply emits_modify. Qed.

Lemma emits_ExperimentRunner_init (randomize accounting : bool) :
  emits S (ExperimentRunner_init env randomize accounting).
Proof.
  intros s. unfold ExperimentRunner_init.
  destruct (Runner._build_treatments _ _ _) as [spec' [e | runner]]; reflexivity.
Qed.

End Emits.

(** Proves [emits S m] for a step built from the pieces above, when
    every call in it satisfies [S]. *)
Ltac emits_step :=
  repeat first
    [ apply emits_ret | apply emits_throw | apply emits_get | apply emits_modify
    | apply emits_now | apply emits_update_treatment
    | apply emits_ExperimentRunner_init
    | apply emits_call; reflexivity
    | apply emits_call_returning; reflexivity
    | apply emits_when | apply emits_for_each; intros ?
    | apply emits_bind; [| intros ?]
    | match goal with |- emits _ (if ?b then _ else _) => destruct b end ].

Section Phases.

Variable env : Env.

Abbreviation before_teardown := (fun e => negb (is_teardown e)).
Abbreviation after_cleaning := (fun e => negb (is_clean e)).

Lemma phased_first {A} (m : M A) : emits before_teardown m -> phased m.
Proof.
  intros Hm s. exists (fst (fst (m s))), []. rewrite app_nil_r.
  repeat split. apply Hm.
Qed.

Lemma phased_second {A} (m : M A) : emits after_cleaning m -> phased m.
Proof. intros Hm s. exists [], (fst (fst (m s))). repeat split. apply Hm. Qed.

Lemma phased_bind_first {A B} (m : M A) (k : A -> M B) :
  emits before_teardown m -> (forall a, phased (k a)) -> phased (bind m k).
Proof.
  intros Hm Hk s. unfold bind. specialize (Hm s).
  destruct (m s) as [[t1 s1] [e | a]].
  - exists t1, []. rewrite app_nil_r. repeat split. exact Hm.
  - destruct (Hk a s1) as (x & y & Ht & Hx & Hy).
    destruct (k a s1) as [[t2 s2] r]. cbn in *. subst t2.
    exists (t1 ++ x)%list, y. rewrite app_assoc. repeat split; [| exact Hy].
    now rewrite forallb_app, Hm, Hx.
Qed.

Lemma phased_bind_second {A B} (m : M A) (k : A -> M B) :
  phased m -> (forall a, emits after_cleaning (k a)) -> phased (bind m k).
Proof.
  intros Hm Hk s. unfold bind. destruct (Hm s) as (x & y & Ht & Hx & Hy).
  destruct (m s) as [[t1 s1] [e | a]]; cbn in *.
  - now exists x, y.
  - specialize (Hk a s1). destruct (k a s1) as [[t2 s2] r]. cbn in *. subst t1.
    exists x, (y ++ t2)%list. rewrite app_assoc. repeat split; [exact Hx |].
    now rewrite forallb_app, Hy, Hk.
Qed.

Lemma clean_compile_time_treatments_first :
  emits before_teardown (clean_compile_time_treatments env).
Proof. unfold clean_compile_time_treatments. emits_step. Qed.

Lemma run_iteration_phased (randomize accounting report : bool) :
  phased (run_iteration env randomize accounting report).
Proof.
  unfold run_iteration.
  do 5 (apply phased_bind_first;
        [unfold execute_compile_time_treatments; emits_step | intros ?]).
  apply phased_bind_first; [emits_step | intros is_ready].
  destruct (negb is_ready).
  - apply phased_bind_first; [apply clean_compile_time_treatments_first | intros ?].
    apply phased_second. emits_step.
  - do 2 (apply phased_bind_first; [emits_step | intros ?]).
    do 5 (apply phased_bind_first; [emits_step | intros ?]).
    apply phased_bind_first;
      [unfold execute_runtime_treatments; emits_step | intros ?].
    apply phased_bind_first; [apply clean_compile_time_treatments_first | intros ?].
    do 2 (apply phased_bind_first; [emits_step | intros ?]).
    apply phased_bind_first;
      [unfold observe_response_variables; emits_step | intros ?].
    do 4 (apply phased_bind_first; [emits_step | intros ?]).
    apply phased_second. emits_step.
Qed.

Lemma main_run_once_two_phase (randomize accounting report : bool) (s : State) :
  two_phase (fst (fst (main_run env 1 randomize accounting report s))).
Proof.
  assert (Hrun : phased (run env 1 randomize accounting report)).
  { unfold run. cbn [seq for_each].
    apply phased_bind_second; [| intros ?; emits_step].
    apply phased_bind_second; [| intros ?; emits_step].
    apply run_iteration_phased. }
  unfold main_run. destruct (Hrun s) as (x & y & Ht & Hx & Hy).
  destruct (run env 1 randomize accounting report s) as [[t1 s1] r]. cbn in Ht. subst t1.
  assert (Hfinally : emits after_cleaning
            (when (loadgen_running s1) (call env generator_kill) >>
             when (sue_running s1) (call env teardown))) by emits_step.
  specialize (Hfinally s1).
  destruct ((when (loadgen_running s1) (call env generator_kill) >>
             when (sue_running s1) (call env teardown)) s1) as [[t2 s2] r2].
  cbn in *. exists x, (y ++ t2)%list. rewrite app_assoc. repeat split; [exact Hx |].
  now rewrite forallb_app, Hy, Hfinally.
Qed.

End Phases.

(** In a trace of two phases no [clean] follows a [teardown]. *)
Lemma two_phase_no_clean_after_teardown (t : list event) :
  two_phase t ->
  forall before after treatment,
    t = (before ++ teardown :: after)%list -> ~ In (clean treatment) after.
Proof.
  intros (a & b & -> & Ha & Hb). revert b Hb.
  induction a as [| e a IH]; intros b Hb before after treatment Hsplit Hin.
  - cbn in Hsplit. subst b. rewrite forallb_app in Hb.
    apply andb_prop in Hb as [_ Hb]. cbn in Hb.
    rewrite forallb_forall in Hb. now specialize (Hb _ Hin).
  - cbn in Ha. apply andb_prop in Ha as [He Ha].
    destruct before as [| e' before]; cbn in Hsplit; injection Hsplit as -> Hrest.
    + discriminate He.
    + exact (IH Ha b Hb before after treatment Hrest Hin).
Qed.

(** *** The calls of a run in which nothing raises *)

(** What of a state decides the calls to come: the specification, the
    treatments held with their kind (runtime or not), whether there is
    an accountant, and the two markers. *)
Record Shape : Type := mkShape {
  shape_spec : Spec;
  kinds : list (string * bool);
  has_accountant : bool;
  marks_loadgen : bool;
  marks_sue : bool
}.

Definition kinds_of (ts : dict Treatment) : list (string * bool) :=
  map (fun kt => (fst kt, is_runtime (class_of (snd kt)))) ts.

Definition shape (s : State) : Shape :=
  mkShape (spec s) (kinds_of (treatments s)) (accountant s) (loadgen_running s)
    (sue_running s).

Definition names (sh : Shape) : list string := map fst (kinds sh).

Definition runtime_names (sh : Shape) : list string :=
  map fst (List.filter (fun kr => snd kr) (kinds sh)).

Definition compile_time_names (sh : Shape) : list string :=
  map fst (List.filter (fun kr => negb (snd kr)) (kinds sh)).

(** From a state of shape [sh], [m] makes the calls [t], ends with [r]
    and leaves a state of shape [sh']. *)
Definition step {A} (sh sh' : Shape) (m : M A) (t : list event) (r : result A) : Prop :=
  forall s, shape s = sh -> exists s', m s = (t, s', r) /\ shape s' = sh'.

Lemma names_shape (s : State) : map fst (treatments s) = names (shape s).
Proof. unfold names, shape, kinds_of. cbn. now rewrite map_map. Qed.

Lemma filter_kinds (p : bool -> bool) (ts : dict Treatment) :
  map fst (List.filter (fun kt => p (is_runtime (class_of (snd kt)))) ts) =
  map fst (List.filter (fun kr => p (snd kr)) (kinds_of ts)).
Proof.
  induction ts as [| [k t] ts IH]; cbn; [reflexivity |].
  destruct (p (is_runtime (class_of t))); cbn; now rewrite IH.
Qed.

Lemma runtime_shape (s : State) : _get_runtime_treatments s = runtime_names (shape s).
Proof. apply (filter_kinds (fun b => b)). Qed.

Lemma compile_time_shape (s : State) :
  _get_compile_time_treatments s = compile_time_names (shape s).
Proof. apply (filter_kinds negb). Qed.

Lemma kinds_of_dict_set (ts : dict Treatment) (name : string) (tr tr' : Treatment) :
  dict_get ts name = Some tr ->
  class_of tr' = class_of tr ->
  kinds_of (dict_set ts name tr') = kinds_of ts.
Proof.
  intros Hget Hclass. unfold kinds_of.
  induction ts as [| [k t] ts IH]; cbn in *; [discriminate |].
  destruct (String.eqb k name); cbn.
  - injection Hget as ->. now rewrite Hclass.
  - f_equal. now apply IH.
Qed.

Lemma flat_map_single {X Y} (f : X -> Y) (l : list X) :
  flat_map (fun x => [f x]) l = map f l.
Proof. induction l as [| x l IH]; cbn; [reflexivity | now rewrite IH]. Qed.

Section Steps.

Variable env : Env.
Hypothesis nothing_raises : forall n e, fails env n e = None.

Lemma step_ret {A} (sh : Shape) (a : A) : step sh sh (ret a) [] (ok a).
Proof. intros s Hs. now exists s. Qed.

Lemma step_throw {A} (sh : Shape) (e : exn) : step sh sh (@throw A e) [] (raise e).
Proof. intros s Hs. now exists s. Qed.

Lemma step_modify (sh sh' : Shape) (f : State -> State) :
  (forall s, shape s = sh -> shape (f s) = sh') -> step sh sh' (modify f) [] (ok tt).
Proof. intros Hf s Hs. exists (f s). split; [reflexivity | now apply Hf]. Qed.

Lemma step_call (sh : Shape) (e : event) : step sh sh (call env e) [e] (ok tt).
Proof.
  intros s Hs. exists (count_call s). unfold call, call_returning.
  now rewrite nothing_raises.
Qed.

Lemma step_bind {A B} (sh1 sh2 sh3 : Shape) (m : M A) (k : A -> M B)
    (t1 t2 : list event) (a : A) (r : result B) :
  step sh1 sh2 m t1 (ok a) -> step sh2 sh3 (k a) t2 r ->
  step sh1 sh3 (bind m k) (t1 ++ t2)%list r.
Proof.
  intros Hm Hk s Hs. destruct (Hm s Hs) as (s1 & Em & Hs1).
  destruct (Hk s1 Hs1) as (s2 & Ek & Hs2). exists s2.
  unfold bind, ok in *. now rewrite Em, Ek.
Qed.

Lemma step_bind_get {B} (sh sh' : Shape) (k : State -> M B) (t : list event) (r : result B) :
  (forall s, shape s = sh -> step sh sh' (k s) t r) -> step sh sh' (bind get k) t r.
Proof.
  intros Hk s Hs. destruct (Hk s Hs s Hs) as (s' & Ek & Hs'). exists s'.
  unfold bind, get. cbn. now rewrite Ek.
Qed.

Lemma step_bind_now {B} (sh sh' : Shape) (k : float -> M B) (t : list event) (r : result B) :
  (forall x, step sh sh' (k x) t r) -> step sh sh' (bind (now env) k) t r.
Proof.
  intros Hk s Hs.
  destruct (Hk (utc_timestamp env (clock s)) (count_reading s) Hs) as (s' & Ek & Hs').
  exists s'. unfold bind, now. cbn. now rewrite Ek.
Qed.

Lemma step_bind_call_returning {A B} (sh sh' : Shape) (e : event) (value : nat -> A)
    (k : A -> M B) (t : list event) (r : result B) :
  (forall n, step sh sh' (k (value n)) t r) ->
  step sh sh' (bind (call_returning env e value) k) (e :: t) r.
Proof.
  intros Hk s Hs. destruct (Hk (calls s) (count_call s) Hs) as (s' & Ek & Hs').
  exists s'. unfold bind, call_returning. rewrite nothing_raises. cbn. now rewrite Ek.
Qed.

Lemma step_for_each {X} (sh : Shape) (body : X -> M unit) (tr : X -> list event)
    (l : list X) :
  (forall x, step sh sh (body x) (tr x) (ok tt)) ->
  step sh sh (for_each body l) (flat_map tr l) (ok tt).
Proof.
  intros Hbody. induction l as [| x l IH]; cbn [for_each flat_map].
  - apply step_ret.
  - eapply step_bind; [apply Hbody | exact IH].
Qed.

Lemma step_when (sh : Shape) (b : bool) (m : M unit) (t : list event) :
  step sh sh m t (ok tt) -> step sh sh (when b m) (if b then t else []) (ok tt).
Proof. intros Hm. destruct b; [exact Hm | apply step_ret]. Qed.

Lemma step_update_treatment (sh : Shape) (name : string) (f : Treatment -> Treatment) :
  (forall tr, class_of (f tr) = class_of tr) ->
  step sh sh (update_treatment name f) [] (ok tt).
Proof.
  intros Hf. apply step_modify. intros s <-.
  destruct (dict_get (treatments s) name) as [tr |] eqn:Hget; [| reflexivity].
  unfold shape. cbn. now rewrite (kinds_of_dict_set _ _ tr).
Qed.

Lemma step_execute_compile_time_treatments (sh : Shape) :
  step sh sh (execute_compile_time_treatments env)
    (map inject (compile_time_names sh)) (ok tt).
Proof.
  unfold execute_compile_time_treatments. apply step_bind_get. intros s <-.
  rewrite compile_time_shape, <- flat_map_single. apply step_for_each. intros x.
  apply step_bind_now. intros t.
  eapply (step_bind _ _ _ _ _ [] [_]);
    [now apply step_update_treatment | apply step_call].
Qed.

Lemma step_clean_compile_time_treatments (sh : Shape) :
  step sh sh (clean_compile_time_treatments env)
    (map clean (compile_time_names sh)) (ok tt).
Proof.
  unfold clean_compile_time_treatments. apply step_bind_get. intros s <-.
  rewrite compile_time_shape, <- flat_map_single. apply step_for_each. intros x.
  apply step_bind_now. intros t.
  eapply (step_bind _ _ _ _ _ [] [_]);
    [now apply step_update_treatment | apply step_call].
Qed.

Lemma step_execute_runtime_treatments (sh : Shape) :
  step sh sh (execute_runtime_treatments env)
    ((if has_accountant sh then [accountant_read] else []) ++
     sleep_left :: flat_map (fun x => [inject x; clean x]) (runtime_names sh))%list
    (ok tt).
Proof.
  unfold execute_runtime_treatments. apply step_bind_get. intros s <-.
  rewrite runtime_shape.
  eapply step_bind; [apply step_when, step_call |].
  eapply (step_bind _ _ _ _ _ [_]); [apply step_call |].
  apply step_for_each. intros x.
  apply step_bind_now. intros t.
  eapply (step_bind _ _ _ _ _ [] [_; _]); [now apply step_update_treatment |].
  eapply (step_bind _ _ _ _ _ [_] [_]); [apply step_call |].
  eapply (step_bind _ _ _ _ _ [_] []); [apply step_call |].
  apply step_bind_now. intros t'. now apply step_update_treatment.
Qed.

Lemma step_observe_response_variables (sh : Shape) :
  step sh sh (observe_response_variables env)
    ([observer_initialize; sleep_right; observer_observe; label] ++
     (if has_accountant sh then [accountant_read; accountant_consolidate] else []))%list
    (ok tt).
Proof.
  unfold observe_response_variables.
  eapply (step_bind _ _ _ _ _ [_]); [apply step_call |].
  eapply (step_bind _ _ _ _ _ [_]); [apply step_call |].
  eapply (step_bind _ _ _ _ _ [_]); [apply step_call |].
  eapply (step_bind _ _ _ _ _ [_]); [apply step_call |].
  apply step_bind_get. intros s <-. apply step_when.
  eapply (step_bind _ _ _ _ _ [_] [_]); apply step_call.
Qed.

Lemma step_trace {A} (sh sh' : Shape) (m : M A) (t t' : list event) (r : result A) :
  step sh sh' m t r -> t = t' -> step sh sh' m t' r.
Proof. now intros H <-. Qed.

(** The shape [ExperimentRunner(...)] leaves when the treatments of
    [runner] were built and the specification became [spec']. *)
Definition built_shape (sh : Shape) (accounting : bool) (spec' : Spec)
    (runner : Runner.ExperimentRunner) : Shape :=
  mkShape spec' (kinds_of (Runner.treatments runner))
    (accounting && Orchestration.truthy (accountant_names env))
    (marks_loadgen sh) (marks_sue sh).

Lemma step_ExperimentRunner_init (sh : Shape) (randomize accounting : bool)
    (spec' : Spec) (runner : Runner.ExperimentRunner) :
  Runner._build_treatments (treatment_keys env) (draws env)
    (Runner.mkRunner (shape_spec sh) randomize []) = (spec', ok runner) ->
  step sh (built_shape sh accounting spec' runner)
    (ExperimentRunner_init env randomize accounting) [] (ok tt).
Proof.
  intros Hbuild s <-. unfold ExperimentRunner_init. cbn [shape shape_spec] in Hbuild.
  rewrite Hbuild. eexists. split; reflexivity.
Qed.

Definition with_sue (b : bool) (sh : Shape) : Shape :=
  mkShape (shape_spec sh) (kinds sh) (has_accountant sh) (marks_loadgen sh) b.

Definition with_loadgen (b : bool) (sh : Shape) : Shape :=
  mkShape (shape_spec sh) (kinds sh) (has_accountant sh) b (marks_sue sh).

Lemma step_set_sue_running (sh : Shape) (b : bool) :
  step sh (with_sue b sh) (modify (set_sue_running b)) [] (ok tt).
Proof. apply step_modify. now intros s <-. Qed.

Lemma step_set_loadgen_running (sh : Shape) (b : bool) :
  step sh (with_loadgen b sh) (modify (set_loadgen_running b)) [] (ok tt).
Proof. apply step_modify. now intros s <-. Qed.

Lemma step_set_experiment_start (sh : Shape) (x : float) :
  step sh sh (modify (set_experiment_start x)) [] (ok tt).
Proof. apply step_modify. now intros s <-. Qed.

Lemma step_set_experiment_end (sh : Shape) (x : float) :
  step sh sh (modify (set_experiment_end x)) [] (ok tt).
Proof. apply step_modify. now intros s <-. Qed.

(** The calls of the store and report loop for one response. *)
Definition report_calls (accounting report : bool) (sh : Shape) (response : string)
    : list event :=
  write_dataframe response ::
  (if report
   then (map (fun treatment => gather_interaction treatment response) (names sh) ++
         [assemble_interaction_data; add_loadgen_data] ++
         (if accounting then [add_accountant_data] else []))%list
   else []).

(** The calls of a run that gives up on readiness. *)
Definition timeout_trace (sh : Shape) : list event :=
  ([orchestrator_init; generator_init] ++
   map inject (compile_time_names sh) ++
   [orchestrate; ready] ++
   map clean (compile_time_names sh) ++
   [teardown])%list.

(** The calls of a run that completes. *)
Definition normal_trace (accounting report : bool) (sh : Shape) : list event :=
  ([orchestrator_init; generator_init] ++
   map inject (compile_time_names sh) ++
   [orchestrate; ready] ++
   map preconditions (names sh) ++
   [generator_start] ++
   (if has_accountant sh then [accountant_read] else []) ++
   [sleep_left] ++
   flat_map (fun x => [inject x; clean x]) (runtime_names sh) ++
   map clean (compile_time_names sh) ++
   [observer_initialize; sleep_right; observer_observe; label] ++
   (if has_accountant sh then [accountant_read; accountant_consolidate] else []) ++
   [generator_stop] ++
   flat_map (report_calls accounting report sh) (response_names env) ++
   [teardown])%list.

Section Built.

Variables randomize accounting report : bool.
Variable sh0 : Shape.
Variable spec' : Spec.
Variable runner : Runner.ExperimentRunner.

Hypothesis built :
  Runner._build_treatments (treatment_keys env) (draws env)
    (Runner.mkRunner (shape_spec sh0) randomize []) = (spec', ok runner).

Abbreviation sh1 := (built_shape sh0 accounting spec' runner).

Lemma run_iteration_timeout :
  (forall n, ready_returns env n = false) ->
  step sh0 sh1 (run_iteration env randomize accounting report) (timeout_trace sh1)
    (raise (OrchestrationException "Error while building the sue"
              "Could not build the sue within the timeout")).
Proof.
  intros Hready. unfold run_iteration, timeout_trace.
  eapply step_trace.
  - eapply step_bind; [apply step_call |].
    eapply step_bind; [apply step_call |].
    eapply step_bind;
      [exact (step_ExperimentRunner_init sh0 randomize accounting spec' runner built) |].
    eapply step_bind; [apply step_execute_compile_time_treatments |].
    eapply step_bind; [apply step_call |].
    apply step_bind_call_returning. intros n. rewrite Hready. cbn [negb].
    eapply step_bind; [apply step_clean_compile_time_treatments |].
    eapply step_bind; [apply step_call |].
    apply step_throw.
  - cbn [app]. rewrite ?app_nil_r, <- ?app_assoc. reflexivity.
Qed.

Lemma run_iteration_normal :
  (forall n, ready_returns env n = true) ->
  (forall n treatment, preconditions_hold env n treatment = true) ->
  step sh0 (with_sue false (with_loadgen false sh1))
    (run_iteration env randomize accounting report)
    (normal_trace accounting report sh1) (ok tt).
Proof.
  intros Hready Hpre. unfold run_iteration, normal_trace.
  eapply step_trace.
  - eapply step_bind; [apply step_call |].
    eapply step_bind; [apply step_call |].
    eapply step_bind;
      [exact (step_ExperimentRunner_init sh0 randomize accounting spec' runner built) |].
    eapply step_bind; [apply step_execute_compile_time_treatments |].
    eapply step_bind; [apply step_call |].
    apply step_bind_call_returning. intros n. rewrite Hready. cbn [negb].
    eapply step_bind; [apply step_set_sue_running |].
    apply step_bind_get. intros s0 Hs0.
    eapply step_bind.
    { rewrite names_shape, Hs0.
      apply (step_for_each _ _ (fun x => [preconditions x])). intros x.
      apply step_bind_call_returning. intros k. rewrite Hpre. apply step_ret. }
    eapply step_bind; [apply step_call |].
    eapply step_bind; [apply step_set_loadgen_running |].
    apply step_bind_now. intros x0.
    eapply step_bind; [apply step_set_experiment_start |].
    eapply step_bind; [apply step_execute_runtime_treatments |].
    eapply step_bind; [apply step_clean_compile_time_treatments |].
    apply step_bind_now. intros x1.
    eapply step_bind; [apply step_set_experiment_end |].
    eapply step_bind; [apply step_observe_response_variables |].
    eapply step_bind; [apply step_call |].
    eapply step_bind; [apply step_set_loadgen_running |].
    apply step_bind_get. intros s1 Hs1.
    eapply step_bind.
    { rewrite names_shape, Hs1.
      apply (step_for_each _ _
               (report_calls accounting report
                  (with_loadgen false (with_loadgen true (with_sue true sh1))))).
      intros response. unfold report_calls.
      eapply (step_bind _ _ _ _ _ [_]); [apply step_call |].
      apply step_when.
      eapply step_bind.
      { rewrite <- flat_map_single. apply step_for_each. intros x. apply step_call. }
      eapply (step_bind _ _ _ _ _ [_]); [apply step_call |].
      eapply (step_bind _ _ _ _ _ [_]); [apply step_call |].
      apply step_when, step_call. }
    eapply step_bind; [apply step_call |].
    exact (step_set_sue_running
             (with_loadgen false (with_loadgen true (with_sue true sh1))) false).
  - cbn [app with_loadgen with_sue compile_time_names runtime_names names kinds
           has_accountant].
    rewrite ?app_nil_r, <- ?app_assoc. reflexivity.
Qed.

End Built.

End Steps.

(** *** The order of cleanup and teardown *)

(** The trace of [main_run] for one run, from the outcome of the run
    itself, when the run leaves both markers unset. *)
Lemma main_run_trace (env : Env) (randomize accounting report : bool)
    (s s' : State) (t : list event) (r : result unit) :
  run env 1 randomize accounting report s = (t, s', r) ->
  loadgen_running s' = false -> sue_running s' = false ->
  fst (fst (main_run env 1 randomize accounting report s)) = t.
Proof.
  intros Hrun Hl Hs. unfold main_run. rewrite Hrun, Hl, Hs. cbn. apply app_nil_r.
Qed.

(** A specification with a compile-time treatment, [stress], and a
    runtime treatment, [empty]; and surroundings in which no call
    raises and all preconditions hold. *)
Definition stress_spec : Spec :=
  mkSpec (YList [])
    (Some [mkEntry "cpu" "stress"
             [("service_name", YStr "frontend"); ("stressors", YDict [("cpu", YInt 1)]);
              ("duration", YStr "10s")];
           mkEntry "wait" "empty" [("duration", YStr "1m")]])
    (YDict []) (YDict []).

Definition calm (sue_is_ready : bool) : Env :=
  mkEnv [("empty", EmptyTreatment); ("stress", StressTreatment)] []
    (fun n => Z2F (Z.of_nat n)) (fun _ _ => None) (fun _ => sue_is_ready)
    (fun _ _ => true) [] ["latency"].

(** C4, as stated, fails on the normal path and on the path of a
    readiness timeout alike: the compile-time treatment [cpu] is
    cleaned before the teardown, and nothing is cleaned after it. *)
Lemma cleanup_is_not_after_teardown :
  let normal := fst (fst (main_run (calm true) 1 false false false (Engine_init stress_spec))) in
  let timeout := fst (fst (main_run (calm false) 1 false false false (Engine_init stress_spec))) in
  normal =
    [orchestrator_init; generator_init; inject "cpu"; orchestrate; ready;
     preconditions "cpu"; preconditions "wait"; generator_start; sleep_left;
     inject "wait"; clean "wait"; clean "cpu"; observer_initialize; sleep_right;
     observer_observe; label; generator_stop; write_dataframe "latency"; teardown] /\
  timeout =
    [orchestrator_init; generator_init; inject "cpu"; orchestrate; ready;
     clean "cpu"; teardown] /\
  (forall before after, normal = (before ++ teardown :: after)%list ->
                        ~ In (clean "cpu") after) /\
  (forall before after, timeout = (before ++ teardown :: after)%list ->
                        ~ In (clean "cpu") after).
Proof.
  intros normal timeout. split; [| split; [| split]].
  - vm_compute. reflexivity.
  - vm_compute. reflexivity.
  - intros before after.
    apply two_phase_no_clean_after_teardown, main_run_once_two_phase.
  - intros before after.
    apply two_phase_no_clean_after_teardown, main_run_once_two_phase.
Qed.

(** C4, amended: in one run, whatever raises, no [clean] is called
    after a [teardown]; and when nothing raises, the run that gives up
    on readiness and the run that completes both clean the
    compile-time treatments before the one teardown, the calls being
    exactly those of [timeout_trace] and of [normal_trace]. *)
Theorem compile_time_cleanup_before_teardown (env : Env)
    (randomize accounting report : bool) (spec : Spec) :
  let trace :=
    fst (fst (main_run env 1 randomize accounting report (Engine_init spec))) in
  (forall before after treatment,
     trace = (before ++ teardown :: after)%list -> ~ In (clean treatment) after) /\
  (forall spec' runner,
     (forall n e, fails env n e = None) ->
     Runner._build_treatments (treatment_keys env) (draws env)
       (Runner.mkRunner spec randomize []) = (spec', ok runner) ->
     let sh := built_shape env (shape (Engine_init spec)) accounting spec' runner in
     ((forall n, ready_returns env n = false) -> trace = timeout_trace sh) /\
     ((forall n, ready_returns env n = true) ->
      (forall n treatment, preconditions_hold env n treatment = true) ->
      trace = (normal_trace env accounting report sh ++
               if report then [dump_report_data] else [])%list)).
Proof.
  intros trace. split.
  - apply two_phase_no_clean_after_teardown, main_run_once_two_phase.
  - intros spec' runner Hfails Hbuilt sh. split.
    + intros Hready.
      destruct (run_iteration_timeout env Hfails randomize accounting report
                  (shape (Engine_init spec)) spec' runner Hbuilt Hready
                  (Engine_init spec) eq_refl) as (s' & Hrun & Hshape).
      apply (main_run_trace env randomize accounting report (Engine_init spec) s'
               _ (raise (OrchestrationException "Error while building the sue"
                           "Could not build the sue within the timeout"))).
      * unfold run. cbn [seq for_each]. unfold bind at 1 2. now rewrite Hrun.
      * now apply (f_equal marks_loadgen) in Hshape.
      * now apply (f_equal marks_sue) in Hshape.
    + intros Hready Hpre.
      destruct (run_iteration_normal env Hfails randomize accounting report
                  (shape (Engine_init spec)) spec' runner Hbuilt Hready Hpre
                  (Engine_init spec) eq_refl) as (s' & Hrun & Hshape).
      assert (Hdump : exists s'',
                 when report (call env dump_report_data) s' =
                 (if report then [dump_report_data] else [], s'', ok tt) /\
                 shape s'' = shape s').
      { destruct report; cbn.
        - unfold call, call_returning. rewrite Hfails. now eexists.
        - now eexists. }
      destruct Hdump as (s'' & Hdump & Hshape').
      apply (main_run_trace env randomize accounting report (Engine_init spec) s''
               _ (ok tt)).
      * unfold run. cbn [seq for_each]. unfold bind at 1 2. rewrite Hrun. cbn.
        rewrite Hdump. now rewrite app_nil_r.
      * rewrite Hshape in Hshape'. now apply (f_equal marks_loadgen) in Hshape'.
      * rewrite Hshape in Hshape'. now apply (f_equal marks_sue) in Hshape'.
Qed.

Lemma compile_time_cleanup_before_teardown_witness :
  fst (fst (main_run (calm false) 1 false false false (Engine_init stress_spec))) =
  [orchestrator_init; generator_init; inject "cpu"; orchestrate; ready;
   clean "cpu"; teardown].
Proof.
  destruct (Runner._build_treatments (treatment_keys (calm false)) (draws (calm false))
              (Runner.mkRunner stress_spec false []))
    as [spec' [e | runner]] eqn:Hbuilt; [vm_compute in Hbuilt; discriminate Hbuilt |].
  rewrite (proj1 (proj2 (compile_time_cleanup_before_teardown
                           (calm false) false false false stress_spec)
                    spec' runner (fun _ _ => eq_refl) Hbuilt) (fun _ => eq_refl)).
  vm_compute in Hbuilt. injection Hbuilt as <- <-. reflexivity.
Defined.

End Engine.
